(** * Viewport-driven building loader: bounds utilities, bounds cache,
      geometry converter and viewport loader

    A shallow embedding of [src/Utils/mapBounds.ts] and of the hook
    [useViewportBuildings] (second half of
    [src/Components/Layout/SiteInfoPanel.tsx]), with the properties the
    specification states about them.

    Layout: data model and functions first (in source order), then the
    lemmas, grouped per component. *)

From Stdlib Require Import QArith Qabs Qround Lqa ZArith Lia Ascii String.
From stdpp Require Import base strings gmap list pretty sorting.

Local Open Scope string_scope.

(** ** Numbers

    The numbers of the program are JavaScript numbers that come out of
    [JSON.parse] or of the map widget: finite IEEE doubles.  Every finite
    double denotes a rational, and [<], [>], [===] on finite doubles are the
    order and equality of the rationals they denote, so a number is modelled
    as a [Q] and compared with [Qle_bool] / [Qeq_bool].  The rounding of the
    arithmetic in [addBoundsBuffer] is not modelled (no property below
    depends on the digits of a buffered edge). *)

Definition number : Type := Q.

Bind Scope Q_scope with number.

(** [x < y] on numbers. *)
Definition num_lt (x y : number) : bool := negb (Qle_bool y x).

(** [x > y] on numbers. *)
Definition num_gt (x y : number) : bool := num_lt y x.

(** [x !== y] on numbers. *)
Definition num_neq (x y : number) : bool := negb (Qeq_bool x y).

Fixpoint zeros (n : nat) : string :=
  match n with
  | O => ""
  | S n' => "0" ++ zeros n'
  end.

(** [Number.prototype.toFixed(f)] (ECMA-262, 21.1.3.3) for a finite number
    of magnitude below 10^21: the sign is taken first, then [n] is the
    integer closest to [|x| * 10^f], the larger one on a tie, and its
    decimal digits are left-padded with zeros to [f + 1] places. *)
Definition toFixed (f : nat) (x : number) : string :=
  let s := if num_lt x 0%Q then "-" else "" in
  let n := Qfloor (Qabs x * inject_Z (10 ^ Z.of_nat f) + (1 # 2)) in
  let m0 : string := pretty n in
  let m := zeros (f + 1 - String.length m0) ++ m0 in
  let k := String.length m in
  match f with
  | O => s ++ m
  | _ =>
      s ++ String.substring 0 (k - f) m ++ "." ++
      String.substring (k - f) f m
  end.

(** ** [src/Utils/mapBounds.ts]: bounds utilities *)

Record MapBounds : Type := mkMapBounds {
  north : number;
  south : number;
  east : number;
  west : number
}.

(** [boundsToKey]: the four edges at four decimals, north, south, east,
    west. *)
Definition boundsToKey (bounds : MapBounds) : string :=
  toFixed 4 (north bounds) ++ "," ++ toFixed 4 (south bounds) ++ "," ++
  toFixed 4 (east bounds) ++ "," ++ toFixed 4 (west bounds).

(** [addBoundsBuffer]; the default [bufferPercent = 0.2] of the source is
    an explicit argument here. *)
Definition addBoundsBuffer (bounds : MapBounds) (bufferPercent : number)
  : MapBounds :=
  let latBuffer := ((north bounds - south bounds) * bufferPercent)%Q in
  let lngBuffer := ((east bounds - west bounds) * bufferPercent)%Q in
  {| north := (north bounds + latBuffer)%Q;
     south := (south bounds - latBuffer)%Q;
     east := (east bounds + lngBuffer)%Q;
     west := (west bounds - lngBuffer)%Q |}.

(** [boundsOverlap]. *)
Definition boundsOverlap (bounds1 bounds2 : MapBounds) : bool :=
  negb (num_lt (east bounds1) (west bounds2) ||
        num_lt (east bounds2) (west bounds1) ||
        num_lt (north bounds1) (south bounds2) ||
        num_lt (north bounds2) (south bounds1)).

Definition viennaBounds : MapBounds :=
  {| north := 48.35%Q; south := 48.10%Q; east := 16.60%Q; west := 16.20%Q |}.

(** [isWithinVienna]. *)
Definition isWithinVienna (bounds : MapBounds) : bool :=
  boundsOverlap bounds viennaBounds.

(** The invariant of the data model: [north >= south] and [east >= west].
    The source does not check it; callers supply it. *)
Definition well_formed (b : MapBounds) : Prop :=
  (south b <= north b)%Q /\ (west b <= east b)%Q.

(** The closed rectangle a well-formed bounds denotes, axis by axis. *)
Definition lng_in (b : MapBounds) (x : Q) : Prop :=
  (west b <= x)%Q /\ (x <= east b)%Q.

Definition lat_in (b : MapBounds) (y : Q) : Prop :=
  (south b <= y)%Q /\ (y <= north b)%Q.

(** Separated on an axis: the two bounds have no longitude in common, or no
    latitude in common. *)
Definition lng_disjoint (a b : MapBounds) : Prop :=
  forall x, ~ (lng_in a x /\ lng_in b x).

Definition lat_disjoint (a b : MapBounds) : Prop :=
  forall y, ~ (lat_in a y /\ lat_in b y).

(** ** The JavaScript [Map]

    [Map<string, V>]: at most one entry per key, iterated in insertion
    order.  [Map.prototype.set] on a key that is present replaces the value
    and leaves the entry where it is; on a new key it appends.  The order
    decides which entry the cache evicts, so the map is a list of entries in
    insertion order. *)

Section JSMap.
Context {V : Type}.

Fixpoint Map_get (key : string) (m : list (string * V)) : option V :=
  match m with
  | [] => None
  | (k, v) :: m' => if decide (k = key) then Some v else Map_get key m'
  end.

Fixpoint Map_set (key : string) (value : V) (m : list (string * V))
  : list (string * V) :=
  match m with
  | [] => [(key, value)]
  | (k, v) :: m' =>
      if decide (k = key) then (key, value) :: m'
      else (k, v) :: Map_set key value m'
  end.

Fixpoint Map_delete (key : string) (m : list (string * V))
  : list (string * V) :=
  match m with
  | [] => []
  | (k, v) :: m' =>
      if decide (k = key) then Map_delete key m'
      else (k, v) :: Map_delete key m'
  end.

Definition Map_keys (m : list (string * V)) : list string := m.*1.

Definition Map_values (m : list (string * V)) : list V := m.*2.

Definition Map_size (m : list (string * V)) : nat := length m.
End JSMap.

(** ** [class BoundsCache]

    The methods take the cache and return the new one.  [Date.now()] is the
    argument [now] of [set]. *)

Module BoundsCache.
Section BoundsCache.
(** The cached payload ([data: any]). *)
Context {A : Type}.

Record CacheEntry : Type := mkCacheEntry {
  data : A;
  timestamp : Z;
  bounds : MapBounds
}.

Record t : Type := mkBoundsCache {
  cache : list (string * CacheEntry);
  maxSize : nat
}.

(** [new BoundsCache()]. *)
Definition new : t := {| cache := []; maxSize := 50 |}.

(** "Simple LRU: remove oldest if at capacity": the map after the [if]
    of [set].  On an empty map [keys().next().value] is [undefined] and the
    [delete] does nothing. *)
Definition evictOldest (this : t) : list (string * CacheEntry) :=
  if (maxSize this <=? Map_size (cache this))%nat then
    match Map_keys (cache this) with
    | firstKey :: _ => Map_delete firstKey (cache this)
    | [] => cache this
    end
  else cache this.

Definition set (this : t) (bounds : MapBounds) (data : A) (now : Z) : t :=
  let key := boundsToKey bounds in
  {| cache :=
       Map_set key {| data := data; timestamp := now; bounds := bounds |}
         (evictOldest this);
     maxSize := maxSize this |}.

(** [get] returns the payload ([None] for [null]) and the cache, whose
    order changes on a hit. *)
Definition get (this : t) (bounds : MapBounds) : option A * t :=
  let key := boundsToKey bounds in
  match Map_get key (cache this) with
  | Some cached =>
      (Some (data cached),
       {| cache := Map_set key cached (Map_delete key (cache this));
          maxSize := maxSize this |})
  | None => (None, this)
  end.

Definition findOverlapping (this : t) (bounds0 : MapBounds) : list A :=
  data <$> filter (fun cached => boundsOverlap bounds0 (bounds cached) = true)
             (Map_values (cache this)).

Definition clear (this : t) : t :=
  {| cache := []; maxSize := maxSize this |}.

Definition size (this : t) : nat := Map_size (cache this).

Definition keys (this : t) : list string := Map_keys (cache this).

(** A sequence of insertions, each with its bounds, payload and time. *)
Definition entry_key (e : MapBounds * A * Z) : string :=
  boundsToKey e.1.1.

Definition insert (this : t) (e : MapBounds * A * Z) : t :=
  set this e.1.1 e.1.2 e.2.

Definition insert_all (entries : list (MapBounds * A * Z)) (this : t) : t :=
  fold_left insert entries this.

(** Uses of the cache, for the statements about recency. *)
Inductive op : Type :=
| OpSet (bounds : MapBounds) (data : A) (now : Z)
| OpGet (bounds : MapBounds).

Definition op_key (o : op) : string :=
  match o with
  | OpSet b _ _ => boundsToKey b
  | OpGet b => boundsToKey b
  end.

Definition step (this : t) (o : op) : t :=
  match o with
  | OpSet b d now => set this b d now
  | OpGet b => (get this b).2
  end.

Definition run (os : list op) (this : t) : t := fold_left step os this.

(** Position (from 1) of the last use of [key] in a history, 0 when the
    key was never used. *)
Fixpoint last_use (os : list op) (key : string) : nat :=
  match os with
  | [] => 0
  | o :: os' =>
      match last_use os' key with
      | O => if decide (op_key o = key) then 1 else 0
      | S n => S (S n)
      end
  end.

(** [key] was last used before [key'] was. *)
Definition used_before (os : list op) (key key' : string) : Prop :=
  (last_use os key < last_use os key')%nat.

(** Every [set] of the history inserts a signature that is not in the
    cache at that moment. *)
Fixpoint inserts_fresh (os : list op) (this : t) : Prop :=
  match os with
  | [] => True
  | o :: os' =>
      match o with
      | OpSet b _ _ => boundsToKey b ∉ keys this
      | OpGet _ => True
      end /\ inserts_fresh os' (step this o)
  end.

(** The cache states the methods can produce from a new cache. *)
Inductive reachable : t -> Prop :=
| reachable_new : reachable new
| reachable_set c b d now : reachable c -> reachable (set c b d now)
| reachable_get c b : reachable c -> reachable (get c b).2
| reachable_clear c : reachable c -> reachable (clear c).
End BoundsCache.
End BoundsCache.

Arguments BoundsCache.CacheEntry : clear implicits.
Arguments BoundsCache.t : clear implicits.
Arguments BoundsCache.op : clear implicits.

(** ** Strings

    A string is kept as the bytes of its UTF-8 encoding: a character below
    U+0080 is one byte, and the only longer characters any function below
    looks at are the white space characters [parseInt] skips. *)

(** ** The upstream payload

    The value [response.json()] resolves to is [null] ([None], where a
    payload is expected) or a value with or without [elements]; [elements]
    is an array when it is present, and an entry of it is [null] ([None])
    or an object: [tags] is an object of strings; a [geometry] is an array
    whose entries are [null] or objects whose [lon] and [lat] are numbers
    or something else ([None]). *)

Record GeomNode : Type := mkGeomNode {
  lon : option number;
  lat : option number
}.

Record OSMMember : Type := mkOSMMember {
  member_type : string;
  role : string;
  member_geometry : option (list (option GeomNode))
}.

Record OSMElement : Type := mkOSMElement {
  type : string;
  tags : option (gmap string string);
  geometry : option (list (option GeomNode));
  members : option (list OSMMember)
}.

Record OSMData : Type := mkOSMData {
  elements : option (list (option OSMElement))
}.

(** ** [interface ViennaBuilding]

    The constant fields [type: 'Feature'] and [geometry.type: 'Polygon'] are
    left out.  A coordinate is the two-element array [[lon, lat]], a pair
    here.  [STOCKWERKE] holds what [parseInt] returns: [NaN], a finite
    double whose value is an integer ([Int 0] is [+0]), [-0], or an
    infinity. *)

Inductive parsed_int : Type :=
| NaN
| Int (z : Z)
| NegativeZero
| Infinity (negative : bool).

Record Properties : Type := mkProperties {
  ADRESSE : option string;
  BAUWEISE : option string;
  STOCKWERKE : option parsed_int;
  BAUJAHR : option number;
  NAME : option string
}.

Record ViennaBuilding : Type := mkViennaBuilding {
  properties : Properties;
  coordinates : list (list (number * number))
}.

Record FeatureCollection : Type := mkFeatureCollection {
  features : list ViennaBuilding
}.

(** ** Tag values

    A tag lookup is [undefined] ([None]) or a string; the empty string is
    falsy like [undefined]. *)

Definition truthy (v : option string) : bool :=
  match v with
  | Some s => negb (String.eqb s "")
  | None => false
  end.

(** [a || b]. *)
Definition js_or (a b : option string) : option string :=
  if truthy a then a else b.

(** The string a truthy tag value is. *)
Definition str (v : option string) : string := default "" v.

(** ** [parseInt(string)] with no radix (ECMA-262, 19.2.5)

    Leading white space and line terminators are skipped, then a sign,
    then [0x] / [0X] selects radix 16, then the longest prefix of digits of
    the radix is read; no digit gives [NaN].  The integer read is turned
    into a double: the nearest one, an infinity from 2^1024 - 2^970 on.
    (An implementation may take the decimal digits after the 20th as
    zeros; the result here is the one without that, and it is the result
    of every implementation on a numeral of at most 20 digits.) *)

(** The white space and line terminators below U+0080: TAB, LF, VT, FF,
    CR and SP. *)
Definition is_white_space (c : ascii) : bool :=
  let n := nat_of_ascii c in
  (n =? 32)%nat || ((9 <=? n)%nat && (n <=? 13)%nat).

(** The one of two bytes: U+00A0. *)
Definition is_white_space2 (c1 c2 : ascii) : bool :=
  ((nat_of_ascii c1 =? 194) && (nat_of_ascii c2 =? 160))%nat.

(** Those of three bytes: U+1680, U+2000 to U+200A, U+2028, U+2029,
    U+202F, U+205F, U+3000 and U+FEFF. *)
Definition is_white_space3 (c1 c2 c3 : ascii) : bool :=
  let n1 := nat_of_ascii c1 in
  let n2 := nat_of_ascii c2 in
  let n3 := nat_of_ascii c3 in
  ((n1 =? 225) && (n2 =? 154) && (n3 =? 128) ||
   (n1 =? 226) && (n2 =? 128) &&
     ((128 <=? n3) && (n3 <=? 138) || (n3 =? 168) || (n3 =? 169) ||
      (n3 =? 175)) ||
   (n1 =? 226) && (n2 =? 129) && (n3 =? 159) ||
   (n1 =? 227) && (n2 =? 128) && (n3 =? 128) ||
   (n1 =? 239) && (n2 =? 187) && (n3 =? 191))%nat.

Fixpoint trim_start (s : string) : string :=
  match s with
  | String c1 s1 =>
      if is_white_space c1 then trim_start s1
      else
        match s1 with
        | String c2 s2 =>
            if is_white_space2 c1 c2 then trim_start s2
            else
              match s2 with
              | String c3 s3 =>
                  if is_white_space3 c1 c2 c3 then trim_start s3 else s
              | EmptyString => s
              end
        | EmptyString => s
        end
  | EmptyString => s
  end.

Definition digit_value (c : ascii) : option Z :=
  let n := Z.of_nat (nat_of_ascii c) in
  if ((48 <=? n) && (n <=? 57))%Z then Some (n - 48)%Z
  else if ((97 <=? n) && (n <=? 122))%Z then Some (n - 87)%Z
  else if ((65 <=? n) && (n <=? 90))%Z then Some (n - 55)%Z
  else None.

(** The value of the longest prefix of radix-[R] digits, [None] when it is
    empty. *)
Fixpoint parse_digits (R : Z) (s : string) (acc : option Z) : option Z :=
  match s with
  | String c s' =>
      match digit_value c with
      | Some d =>
          if (d <? R)%Z then parse_digits R s' (Some (default 0 acc * R + d))%Z
          else acc
      | None => acc
      end
  | EmptyString => acc
  end.

(** The double nearest to the integer [m > 0], the one of even significand
    on a tie (ECMA-262, 6.1.6.1); [None] when that is an infinity. *)
Definition nearest_double (m : Z) : option Z :=
  let e := (Z.log2 m - 52)%Z in
  let r :=
    if (e <=? 0)%Z then m
    else
      let q := Z.shiftr m e in
      let rest := (m - Z.shiftl q e)%Z in
      let half := Z.shiftl 1 (e - 1) in
      let q' :=
        if (rest <? half)%Z then q
        else if (half <? rest)%Z then (q + 1)%Z
        else if Z.even q then q else (q + 1)%Z in
      Z.shiftl q' e in
  if (r <? 2 ^ 1024)%Z then Some r else None.

(** The number [parseInt] returns for the sign and the integer read. *)
Definition integer_result (sign mathInt : Z) : parsed_int :=
  if (mathInt =? 0)%Z then
    if (sign =? -1)%Z then NegativeZero else Int 0
  else
    match nearest_double mathInt with
    | Some m => Int (sign * m)
    | None => Infinity (sign =? -1)%Z
    end.

Definition parseInt (input : string) : parsed_int :=
  let s0 := trim_start input in
  let '(sign, s1) :=
    match s0 with
    | String "-" s' => ((-1)%Z, s')
    | String "+" s' => (1%Z, s')
    | _ => (1%Z, s0)
    end in
  let '(R, s2) :=
    match s1 with
    | String "0" (String "x" s') => (16%Z, s')
    | String "0" (String "X" s') => (16%Z, s')
    | _ => (10%Z, s1)
    end in
  match parse_digits R s2 None with
  | Some mathInt => integer_result sign mathInt
  | None => NaN
  end.

(** The no-break space U+00A0. *)
Definition no_break_space : string :=
  String (ascii_of_nat 194) (String (ascii_of_nat 160) "").

(** ** The hook [useViewportBuildings]: classification helpers *)

Definition getBuildingType (tags : gmap string string) : string :=
  if truthy (tags !! "building") &&
     bool_decide (tags !! "building" ≠ Some "yes")
  then str (tags !! "building")
  else if truthy (tags !! "building:part") then str (tags !! "building:part")
  else if truthy (tags !! "landuse") then str (tags !! "landuse") ++ " area"
  else if truthy (tags !! "man_made") then str (tags !! "man_made")
  else if truthy (tags !! "amenity") then str (tags !! "amenity")
  else if truthy (tags !! "leisure") then str (tags !! "leisure")
  else if truthy (tags !! "shop") then "shop (" ++ str (tags !! "shop") ++ ")"
  else if truthy (tags !! "office") then "office"
  else if truthy (tags !! "tourism") then str (tags !! "tourism")
  else if truthy (tags !! "historic") then str (tags !! "historic")
  else if truthy (tags !! "aeroway") then str (tags !! "aeroway")
  else if truthy (tags !! "railway") then str (tags !! "railway")
  else if truthy (tags !! "public_transport")
  then str (tags !! "public_transport")
  else if truthy (tags !! "craft") then str (tags !! "craft")
  else if truthy (tags !! "industrial") then str (tags !! "industrial")
  else "structure".

Definition getBuildingTypeLabel (tags : gmap string string) : string :=
  if truthy (tags !! "building") &&
     bool_decide (tags !! "building" ≠ Some "yes")
  then str (tags !! "building") ++ " building"
  else if truthy (tags !! "building:part") then "building part"
  else if truthy (tags !! "landuse") then str (tags !! "landuse") ++ " area"
  else if truthy (tags !! "man_made") then str (tags !! "man_made")
  else if truthy (tags !! "amenity") then str (tags !! "amenity")
  else if truthy (tags !! "leisure") then str (tags !! "leisure")
  else if truthy (tags !! "shop") then "shop"
  else if truthy (tags !! "office") then "office building"
  else "Vienna Structure".

(** ** [convertOSMToGeoJSON] *)

(** Truthiness of the [||] chain over the structure tags. *)
Definition hasStructureTag (tags : gmap string string) : bool :=
  truthy (tags !! "building") ||
  truthy (tags !! "building:part") ||
  truthy (tags !! "landuse") ||
  truthy (tags !! "man_made") ||
  truthy (tags !! "amenity") ||
  truthy (tags !! "leisure") ||
  truthy (tags !! "shop") ||
  truthy (tags !! "office") ||
  truthy (tags !! "tourism") ||
  truthy (tags !! "historic") ||
  truthy (tags !! "aeroway") ||
  truthy (tags !! "railway") ||
  truthy (tags !! "public_transport") ||
  truthy (tags !! "craft") ||
  truthy (tags !! "industrial").

(** [.filter(node => node && typeof node.lon === 'number' && typeof
    node.lat === 'number').map(node => [node.lon, node.lat])]. *)
Definition nodeCoord (node : option GeomNode) : option (number * number) :=
  match node with
  | Some n =>
      match lon n, lat n with
      | Some x, Some y => Some (x, y)
      | _, _ => None
      end
  | None => None
  end.

Definition nodeCoords (geometry : list (option GeomNode))
  : list (number * number) :=
  omap nodeCoord geometry.

(** The members the relation branch keeps. *)
Definition isOuterWay (member : OSMMember) : bool :=
  String.eqb (member_type member) "way" &&
  String.eqb (role member) "outer" &&
  bool_decide (is_Some (member_geometry member)).

(** The coordinates extracted from an element (the [try] block up to the
    validation). *)
Definition extractCoords (element : OSMElement)
  (geometry : list (option GeomNode)) : list (number * number) :=
  if String.eqb (type element) "way" then nodeCoords geometry
  else if String.eqb (type element) "relation" then
    match members element with
    | Some ms =>
        match filter (fun m => isOuterWay m = true) ms with
        | outer :: _ => nodeCoords (default [] (member_geometry outer))
        | [] => []
        end
    | None => []
    end
  else [].

(** The argument of [coords.some]: the coordinate lies outside the rough
    bounds of Vienna.  (The array and [typeof] tests of the source hold by
    construction of [coords].) *)
Definition invalidCoord (coord : number * number) : bool :=
  num_lt coord.1 16.0 || num_gt coord.1 17.0 ||
  num_lt coord.2 48.0 || num_gt coord.2 48.5.

(** "Ensure polygon is closed". *)
Definition closeRing (coords : list (number * number))
  : list (number * number) :=
  match head coords, last coords with
  | Some firstCoord, Some lastCoord =>
      if num_neq firstCoord.1 lastCoord.1 || num_neq firstCoord.2 lastCoord.2
      then coords ++ [(firstCoord.1, firstCoord.2)]
      else coords
  | _, _ => coords
  end.

Definition buildingProperties (tags : gmap string string) : Properties :=
  {| ADRESSE :=
       Some (if truthy (tags !! "addr:street") &&
                truthy (tags !! "addr:housenumber")
             then str (tags !! "addr:street") ++ " " ++
                  str (tags !! "addr:housenumber")
             else if truthy (tags !! "name") then str (tags !! "name")
             else getBuildingTypeLabel tags);
     BAUWEISE := Some (getBuildingType tags);
     STOCKWERKE :=
       if truthy (js_or (tags !! "building:levels") (tags !! "levels"))
       then Some (parseInt (str (js_or (tags !! "building:levels")
                                       (tags !! "levels"))))
       else None;
     BAUJAHR := None;
     NAME := if truthy (tags !! "name") then tags !! "name" else None |}.

(** The body of the [forEach] callback: the feature pushed for an element,
    [None] when the callback returns without pushing. *)
Definition convertElement (element : OSMElement) : option ViennaBuilding :=
  match geometry element, tags element with
  | Some geometry, Some tags =>
      if negb (hasStructureTag tags) &&
         negb (String.eqb (type element) "way" && (3 <? length geometry)%nat)
      then None
      else
        let coords := extractCoords element geometry in
        if (length coords <? 4)%nat then None
        else if existsb invalidCoord coords then None
        else
          let coords := closeRing coords in
          if (100 <? length coords)%nat then None
          else Some {| properties := buildingProperties tags;
                       coordinates := [coords] |}
  | _, _ => None
  end.

(** How a call of the converter ends: it returns [validBuildings], or the
    read of a property of [null] raises a [TypeError] outside the [try] of
    the callback. *)
Inductive Converted : Type :=
| Returns (validBuildings : list ViennaBuilding)
| ThrowsTypeError (property : string).

(** [elements.forEach(callback)], from [validBuildings] so far: on a
    [null] entry the callback raises at [element.geometry], which ends the
    loop and the converter. *)
Fixpoint forEach_element (els : list (option OSMElement))
  (validBuildings : list ViennaBuilding) : Converted :=
  match els with
  | [] => Returns validBuildings
  | None :: _ => ThrowsTypeError "geometry"
  | Some element :: els' =>
      forEach_element els'
        (validBuildings ++ option_list (convertElement element))
  end.

Definition convertOSMToGeoJSON (data : option OSMData) : Converted :=
  match data with
  | None => ThrowsTypeError "elements"
  | Some data =>
      match elements data with
      | Some elements => forEach_element elements []
      | None => Returns []
      end
  end.

(** ** The hook [useViewportBuildings]: [loadBuildings] and [clearCache]

    [Number::toString], which renders the numbers of the bbox string and of
    [join(',')], is the parameter [numberToString]; the message the engine
    gives the [TypeError] of a read of a property of [null] is the
    parameter [typeErrorMessage], from the name of the property. *)

(** What a [catch] receives: an [Error] with its message, or another
    value. *)
Inductive Thrown : Type :=
| ErrorObject (message : string)
| OtherValue.

(** How the upstream fetch of one call ends: [fetch] rejects; the response
    arrives with [ok] false; [response.json()] rejects; or the body parses
    to a payload. *)
Inductive FetchOutcome : Type :=
| FetchRejected (err : Thrown)
| ResponseNotOk (status : nat)
| JsonRejected (err : Thrown)
| JsonData (data : option OSMData).

(** The state the hook reads and writes: its three [useState] cells, the
    [loadingRef] set and the module-level [buildingCache]. *)
Record HookState : Type := mkHookState {
  buildings : FeatureCollection;
  loading : bool;
  error : option string;
  loadingRef : gset string;
  buildingCache : BoundsCache.t FeatureCollection
}.

(** The variables a call suspended at [await fetch(overpassUrl)] holds. *)
Record Pending : Type := mkPending {
  bufferedBounds : MapBounds;
  boundsKey : string
}.

Definition initialState : HookState :=
  {| buildings := {| features := [] |};
     loading := false;
     error := None;
     loadingRef := ∅;
     buildingCache := BoundsCache.new |}.

Section Loader.
Context (numberToString : number -> string).
Context (typeErrorMessage : string -> string).

(** [boundsToOverpassBbox]: south, west, north, east. *)
Definition boundsToOverpassBbox (bounds : MapBounds) : string :=
  numberToString (south bounds) ++ "," ++ numberToString (west bounds) ++
  "," ++ numberToString (north bounds) ++ "," ++
  numberToString (east bounds).

(** [f.geometry.coordinates[0][0].join(',')]; [None] where the source
    raises a [TypeError] (no ring, or an empty ring). *)
Definition firstPointKey (f : ViennaBuilding) : option string :=
  match coordinates f with
  | (coord :: _) :: _ =>
      Some (numberToString coord.1 ++ "," ++ numberToString coord.2)
  | _ => None
  end.

(** The updater of the cache-hit path. *)
Definition appendCached (cachedData prev : FeatureCollection)
  : FeatureCollection :=
  {| features := features prev ++ features cachedData |}.

(** The updater of the fetch path. *)
Definition mergeNew (newBuildings : list ViennaBuilding)
  (prev : FeatureCollection) : FeatureCollection :=
  let existingCoords := firstPointKey <$> features prev in
  let uniqueNewBuildings :=
    filter (fun building => firstPointKey building ∉ existingCoords)
      newBuildings in
  {| features := features prev ++ uniqueNewBuildings |}.

(** [loadBuildings] up to its suspension: the new state, and the pending
    call when [fetch] was called ([None] when the call returned). *)
Definition loadBuildings_call (bounds : MapBounds) (st : HookState)
  : HookState * option Pending :=
  if negb (isWithinVienna bounds) then (st, None)
  else
    let bufferedBounds := addBoundsBuffer bounds 0.3 in
    let bbox := boundsToOverpassBbox bufferedBounds in
    let boundsKey := bbox in
    if bool_decide (boundsKey ∈ loadingRef st) then (st, None)
    else
      match BoundsCache.get (buildingCache st) bufferedBounds with
      | (Some cachedData, cache') =>
          ({| buildings := appendCached cachedData (buildings st);
              loading := loading st;
              error := error st;
              loadingRef := loadingRef st;
              buildingCache := cache' |}, None)
      | (None, cache') =>
          ({| buildings := buildings st;
              loading := true;
              error := None;
              loadingRef := {[ boundsKey ]} ∪ loadingRef st;
              buildingCache := cache' |},
           Some {| bufferedBounds := bufferedBounds;
                   boundsKey := boundsKey |})
      end.

(** The message [setError] receives in the [catch]. *)
Definition errorMessage (err : Thrown) : string :=
  match err with
  | ErrorObject message => message
  | OtherValue => "Failed to load buildings"
  end.

(** The [try] block from the settlement of the fetch to the result of the
    converter: [newBuildings], or what is thrown on the way. *)
Definition try_newBuildings (outcome : FetchOutcome)
  : Thrown + list ViennaBuilding :=
  match outcome with
  | FetchRejected err => inl err
  | ResponseNotOk status =>
      inl (ErrorObject ("Overpass API failed: " ++ pretty status))
  | JsonRejected err => inl err
  | JsonData data =>
      match convertOSMToGeoJSON data with
      | Returns newBuildings => inr newBuildings
      | ThrowsTypeError property =>
          inl (ErrorObject (typeErrorMessage property))
      end
  end.

(** What the [try] block throws, if it throws. *)
Definition thrownBy (outcome : FetchOutcome) : option Thrown :=
  match try_newBuildings outcome with
  | inl err => Some err
  | inr _ => None
  end.

(** [loadBuildings] from the settlement of its fetch to its end: the rest
    of the [try], the [catch], the [finally]. *)
Definition loadBuildings_resume (p : Pending) (outcome : FetchOutcome)
  (now : Z) (st : HookState) : HookState :=
  let st1 :=
    match try_newBuildings outcome with
    | inr newBuildings =>
        let newBuildingData := {| features := newBuildings |} in
        {| buildings := mergeNew newBuildings (buildings st);
           loading := loading st;
           error := error st;
           loadingRef := loadingRef st;
           buildingCache :=
             BoundsCache.set (buildingCache st) (bufferedBounds p)
               newBuildingData now |}
    | inl err =>
        {| buildings := buildings st;
           loading := loading st;
           error := Some (errorMessage err);
           loadingRef := loadingRef st;
           buildingCache := buildingCache st |}
    end in
  {| buildings := buildings st1;
     loading := false;
     error := error st1;
     loadingRef := loadingRef st1 ∖ {[ boundsKey p ]};
     buildingCache := buildingCache st1 |}.

Definition clearCache (st : HookState) : HookState :=
  {| buildings := {| features := [] |};
     loading := loading st;
     error := error st;
     loadingRef := loadingRef st;
     buildingCache := BoundsCache.clear (buildingCache st) |}.

(** *** The hook in its event loop

    Calls of [loadBuildings] run to their [await] and the fetches settle
    later, in any order.  [outstanding] are the suspended calls and
    [fetched] the bbox strings of all [fetch] calls made so far. *)
Record System : Type := mkSystem {
  hook : HookState;
  outstanding : list Pending;
  fetched : list string
}.

Inductive Event : Type :=
| Load (bounds : MapBounds)
| Settle (i : nat) (outcome : FetchOutcome) (now : Z)
| Clear.

Definition initialSystem : System :=
  {| hook := initialState; outstanding := []; fetched := [] |}.

Definition react (sys : System) (ev : Event) : System :=
  match ev with
  | Load bounds =>
      match loadBuildings_call bounds (hook sys) with
      | (st, Some p) =>
          {| hook := st;
             outstanding := outstanding sys ++ [p];
             fetched := fetched sys ++ [boundsKey p] |}
      | (st, None) =>
          {| hook := st;
             outstanding := outstanding sys;
             fetched := fetched sys |}
      end
  | Settle i outcome now =>
      match outstanding sys !! i with
      | Some p =>
          {| hook := loadBuildings_resume p outcome now (hook sys);
             outstanding := delete i (outstanding sys);
             fetched := fetched sys |}
      | None => sys
      end
  | Clear =>
      {| hook := clearCache (hook sys);
         outstanding := outstanding sys;
         fetched := fetched sys |}
  end.

Definition reacts (evs : list Event) (sys : System) : System :=
  fold_left react evs sys.

(** The invariant of the event loop: the in-flight set holds exactly the
    bbox strings of the suspended calls, each once. *)
Definition in_flight_ok (sys : System) : Prop :=
  NoDup (boundsKey <$> outstanding sys) /\
  forall key, key ∈ loadingRef (hook sys) <->
              key ∈ boundsKey <$> outstanding sys.
End Loader.

(** ** Properties of rings *)

(** First point equals last point ([===] on both numbers). *)
Definition ring_closed (ring : list (number * number)) : Prop :=
  match head ring, last ring with
  | Some p, Some q => (p.1 == q.1)%Q /\ (p.2 == q.2)%Q
  | _, _ => False
  end.

(** Inside the home bounding box: longitude 16.0 to 17.0, latitude 48.0 to
    48.5. *)
Definition in_home_box (p : number * number) : Prop :=
  (16 <= p.1)%Q /\ (p.1 <= 17)%Q /\ (48 <= p.2)%Q /\ (p.2 <= 48.5)%Q.

(** The [geometry] array of a way whose nodes all carry numbers. *)
Definition way_nodes (pts : list (number * number))
  : list (option GeomNode) :=
  (fun p => Some {| lon := Some p.1; lat := Some p.2 |}) <$> pts.

(** The invariant of a building feature: one ring, closed, of 4 to 100
    points, all inside the home bounding box. *)
Definition valid_feature (f : ViennaBuilding) : Prop :=
  exists ring,
    coordinates f = [ring] /\ ring_closed ring /\
    (4 <= length ring)%nat /\ (length ring <= 100)%nat /\
    Forall in_home_box ring.

(** The text after a numeral does not continue it: it is empty or starts
    with a character that is not a decimal digit. *)
Definition stops_decimal (rest : string) : Prop :=
  match rest with
  | EmptyString => True
  | String c _ => forall d, digit_value c = Some d -> (10 <= d)%Z
  end.

(** [cacheInfo] of the hook: the number of cached areas and of accumulated
    buildings. *)
Definition cacheInfo (st : HookState) : nat * nat :=
  (BoundsCache.size (buildingCache st), length (features (buildings st))).

(** Every accumulated feature and every cached feature satisfies the
    feature invariant. *)
Definition state_valid (st : HookState) : Prop :=
  Forall valid_feature (features (buildings st)) /\
  forall key e, (key, e) ∈ BoundsCache.cache (buildingCache st) ->
                Forall valid_feature (features (BoundsCache.data e)).

(** The state [st'] is the end of a failed load of the suspended call [p]
    from the state [st]: the error is [message], the accumulated buildings
    and the cache are those of [st], [loading] is false and the bbox string
    of [p] is not in the in-flight set. *)
Definition failed_with (p : Pending) (st st' : HookState) (message : string)
  : Prop :=
  error st' = Some message /\
  buildings st' = buildings st /\
  buildingCache st' = buildingCache st /\
  loading st' = false /\
  boundsKey p ∉ loadingRef st'.

(** ** The quantization behind [boundsToKey]

    What [toFixed f] keeps of a number: whether it is negative, and the
    integer closest to its magnitude times 10^f. *)
Definition rounded (f : nat) (x : number) : bool * Z :=
  (num_lt x 0%Q,
   Qfloor (Qabs x * inject_Z (10 ^ Z.of_nat f) + (1 # 2))).

Fixpoint string_all (P : ascii -> bool) (s : string) : bool :=
  match s with
  | EmptyString => true
  | String c s' => P c && string_all P s'
  end.

Definition is_decimal_digit (c : ascii) : bool :=
  match digit_value c with
  | Some d => (d <? 10)%Z
  | None => false
  end.

Definition not_comma (c : ascii) : bool := negb (Ascii.eqb c ",").

Fixpoint remove_dots (s : string) : string :=
  match s with
  | EmptyString => EmptyString
  | String c s' =>
      if Ascii.eqb c "." then remove_dots s' else String c (remove_dots s')
  end.

(** Reading a [toFixed] string back: the sign, and the digits without the
    decimal point. *)
Definition unFixed (s : string) : bool * option Z :=
  match s with
  | EmptyString => (false, None)
  | String c r =>
      if Ascii.eqb c "-" then (true, parse_digits 10 (remove_dots r) None)
      else (false, parse_digits 10 (remove_dots s) None)
  end.

(** ** Sample data *)

(** The way of the end-to-end scenario, on the nodes [pts]. *)
Definition graben_tags : gmap string string :=
  {[ "building" := "yes"; "addr:street" := "Graben";
     "addr:housenumber" := "21" ]}.

Definition graben_way (pts : list (number * number)) : OSMElement :=
  {| type := "way"; tags := Some graben_tags;
     geometry := Some (way_nodes pts); members := None |}.


(** Five nodes in the home region, the last one different from the first. *)
Definition open_nodes : list (number * number) :=
  [(16.37, 48.20); (16.371, 48.20); (16.371, 48.201); (16.37, 48.201);
   (16.3705, 48.2015)]%Q.

(** Five nodes in the home region, the last one equal to the first. *)
Definition closed_nodes : list (number * number) :=
  [(16.37, 48.20); (16.371, 48.20); (16.371, 48.201); (16.37, 48.201);
   (16.37, 48.20)]%Q.

(** A closed ring of four nodes that starts east of the one above. *)
Definition east_nodes : list (number * number) :=
  [(16.372, 48.20); (16.373, 48.20); (16.373, 48.201); (16.372, 48.20)]%Q.

(** The viewport of the end-to-end scenario, inside the home region. *)
Definition sample_view : MapBounds :=
  {| north := 48.21; south := 48.20; east := 16.38; west := 16.37 |}.

(** A rendering of numbers to instantiate [numberToString] in examples. *)
Definition sample_numberToString (x : number) : string := toFixed 7 x.

(** A message to instantiate [typeErrorMessage] in examples. *)
Definition sample_typeErrorMessage (property : string) : string :=
  "Cannot read properties of null (reading '" ++ property ++ "')".

(** The [i]-th sample cache entry: a bounds whose north edge is [i], the
    payload [i], inserted at time [i]. *)
Definition sample_entry (i : nat) : MapBounds * nat * Z :=
  ({| north := inject_Z (Z.of_nat i); south := 0; east := 0; west := 0 |},
   i, Z.of_nat i).

(** The history [set] of entry 1, of entry 2, of entry 1 again with
    another payload, and of entries 3 to 50. *)
Definition reinsert_history : list (BoundsCache.op nat) :=
  (fun e : MapBounds * nat * Z => BoundsCache.OpSet e.1.1 e.1.2 e.2) <$>
  (sample_entry 1 :: sample_entry 2 ::
   ((sample_entry 1).1.1, 100%nat, 3%Z) :: (sample_entry <$> seq 3 48)).

(** * Lemmas: bounds utilities *)

Lemma num_lt_true (x y : number) : num_lt x y = true <-> (x < y)%Q.
Proof.
  unfold num_lt. rewrite negb_true_iff.
  destruct (Qle_bool y x) eqn:E.
  - apply Qle_bool_iff in E. split; [discriminate | intros H; lra].
  - split; [intros _ | reflexivity].
    destruct (Qlt_le_dec x y) as [H | H]; [exact H |].
    apply Qle_bool_iff in H. congruence.
Qed.

Lemma num_lt_false (x y : number) : num_lt x y = false <-> (y <= x)%Q.
Proof.
  unfold num_lt. rewrite negb_false_iff. apply Qle_bool_iff.
Qed.

Lemma boundsOverlap_true (a b : MapBounds) :
  boundsOverlap a b = true <->
  (west b <= east a /\ west a <= east b /\
   south b <= north a /\ south a <= north b)%Q.
Proof.
  unfold boundsOverlap. rewrite negb_true_iff, !orb_false_iff.
  rewrite !num_lt_false. tauto.
Qed.

Lemma boundsOverlap_false (a b : MapBounds) :
  boundsOverlap a b = false <->
  (east a < west b \/ east b < west a \/
   north a < south b \/ north b < south a)%Q.
Proof.
  unfold boundsOverlap. rewrite negb_false_iff, !orb_true_iff.
  rewrite !num_lt_true. tauto.
Qed.

(** A rectangle whose edges are inverted does not overlap itself: the
    reflexivity below needs the data-model invariant. *)
Example boundsOverlap_inverted :
  boundsOverlap (mkMapBounds 0 1 0 0) (mkMapBounds 0 1 0 0) = false.
Proof. reflexivity. Qed.

(** C9: [boundsOverlap] is symmetric for all bounds; a bounds that
    satisfies the data-model invariant overlaps itself; the result is false
    as soon as an edge of one rectangle lies strictly beyond the facing edge
    of the other, and, for bounds that satisfy the invariant, as soon as the
    two rectangles have no longitude or no latitude in common; two such
    rectangles that share an edge coordinate and have the other axis in
    common overlap. *)
Theorem boundsOverlap_spec (a b : MapBounds) :
  boundsOverlap a b = boundsOverlap b a /\
  (well_formed a -> boundsOverlap a a = true) /\
  ((east a < west b \/ east b < west a \/
    north a < south b \/ north b < south a)%Q -> boundsOverlap a b = false) /\
  (well_formed a -> well_formed b ->
   lng_disjoint a b \/ lat_disjoint a b -> boundsOverlap a b = false) /\
  (well_formed a -> well_formed b ->
   (east a == west b)%Q -> ~ lat_disjoint a b -> boundsOverlap a b = true) /\
  (well_formed a -> well_formed b ->
   (north a == south b)%Q -> ~ lng_disjoint a b -> boundsOverlap a b = true).
Proof.
  split; [| split; [| split; [| split; [| split]]]].
  - unfold boundsOverlap. f_equal.
    destruct (num_lt (east a) (west b)), (num_lt (east b) (west a)),
      (num_lt (north a) (south b)), (num_lt (north b) (south a)); reflexivity.
  - intros [Ha1 Ha2]. apply boundsOverlap_true. repeat split; assumption.
  - intros H. apply boundsOverlap_false. exact H.
  - intros [Ha1 Ha2] [Hb1 Hb2] Hsep.
    destruct (boundsOverlap a b) eqn:E; [exfalso | reflexivity].
    apply boundsOverlap_true in E. destruct E as (E1 & E2 & E3 & E4).
    destruct Hsep as [Hx | Hy].
    + destruct (Qlt_le_dec (west a) (west b)) as [L | L].
      * apply (Hx (west b)). unfold lng_in. repeat split; lra.
      * apply (Hx (west a)). unfold lng_in. repeat split; lra.
    + destruct (Qlt_le_dec (south a) (south b)) as [L | L].
      * apply (Hy (south b)). unfold lat_in. repeat split; lra.
      * apply (Hy (south a)). unfold lat_in. repeat split; lra.
  - intros [Ha1 Ha2] [Hb1 Hb2] He Hlat.
    destruct (boundsOverlap a b) eqn:E; [reflexivity | exfalso].
    apply boundsOverlap_false in E. apply Hlat. intros y [[Y1 Y2] [Y3 Y4]].
    lra.
  - intros [Ha1 Ha2] [Hb1 Hb2] He Hlng.
    destruct (boundsOverlap a b) eqn:E; [reflexivity | exfalso].
    apply boundsOverlap_false in E. apply Hlng. intros x [[X1 X2] [X3 X4]].
    lra.
Qed.

(** * Lemmas: the JavaScript [Map] *)

Local Open Scope list_scope.

Section JSMapFacts.
Context {V : Type}.
Implicit Types (m : list (string * V)) (k key : string) (v : V).

Lemma Map_keys_set key v m :
  Map_keys (Map_set key v m) =
  if decide (key ∈ Map_keys m) then Map_keys m else Map_keys m ++ [key].
Proof.
  unfold Map_keys. induction m as [| [k w] m IH].
  - destruct (decide (key ∈ ([] : list (string * V)).*1)) as [Hin | _].
    + apply elem_of_nil in Hin. contradiction.
    + reflexivity.
  - cbn [Map_set]. destruct (decide (k = key)) as [-> | Hne].
    + rewrite !fmap_cons. cbn [fst].
      rewrite decide_True by apply list_elem_of_here. reflexivity.
    + rewrite !fmap_cons. cbn [fst]. rewrite IH.
      destruct (decide (key ∈ m.*1)) as [Hin | Hnin].
      * rewrite decide_True by (apply list_elem_of_further, Hin).
        reflexivity.
      * rewrite decide_False; [reflexivity |].
        rewrite elem_of_cons. intros [-> | ?]; tauto.
Qed.

Lemma Map_keys_delete key m :
  Map_keys (Map_delete key m) = filter (fun k => k ≠ key) (Map_keys m).
Proof.
  unfold Map_keys. induction m as [| [k w] m IH]; simpl; [reflexivity |].
  destruct (decide (k = key)) as [-> | Hne].
  - rewrite filter_cons_False by tauto. exact IH.
  - rewrite filter_cons_True by exact Hne. simpl. f_equal. exact IH.
Qed.

Lemma Map_get_None key m : Map_get key m = None <-> key ∉ Map_keys m.
Proof.
  unfold Map_keys. induction m as [| [k w] m IH]; simpl.
  - split; [intros _; apply not_elem_of_nil | reflexivity].
  - rewrite not_elem_of_cons. destruct (decide (k = key)) as [-> | Hne].
    + split; [discriminate | tauto].
    + rewrite IH. split; [intros H; split; [congruence | exact H] | tauto].
Qed.

Lemma Map_get_Some_elem key v m : Map_get key m = Some v -> key ∈ Map_keys m.
Proof.
  intros H. destruct (decide (key ∈ Map_keys m)) as [? | Hn]; [assumption |].
  apply Map_get_None in Hn. congruence.
Qed.

Lemma Map_get_set key v m : Map_get key (Map_set key v m) = Some v.
Proof.
  induction m as [| [k w] m IH]; simpl.
  - rewrite decide_True; reflexivity.
  - destruct (decide (k = key)) as [-> | Hne]; simpl.
    + rewrite decide_True; reflexivity.
    + rewrite decide_False by exact Hne. exact IH.
Qed.

Lemma Map_get_set_ne key k v m :
  k ≠ key -> Map_get k (Map_set key v m) = Map_get k m.
Proof.
  intros Hne. induction m as [| [k' w] m IH]; simpl.
  - rewrite decide_False by congruence. reflexivity.
  - destruct (decide (k' = key)) as [-> | Hne']; simpl.
    + rewrite !decide_False by congruence. reflexivity.
    + destruct (decide (k' = k)); [reflexivity | exact IH].
Qed.

Lemma Map_get_delete_ne key k m :
  k ≠ key -> Map_get k (Map_delete key m) = Map_get k m.
Proof.
  intros Hne. induction m as [| [k' w] m IH]; simpl; [reflexivity |].
  destruct (decide (k' = key)) as [-> | Hne']; simpl.
  - rewrite decide_False by congruence. exact IH.
  - destruct (decide (k' = k)); [reflexivity | exact IH].
Qed.

Lemma Map_delete_absent key m : key ∉ Map_keys m -> Map_delete key m = m.
Proof.
  unfold Map_keys. induction m as [| [k w] m IH]; simpl; [reflexivity |].
  rewrite not_elem_of_cons. intros [Hne Hnin].
  rewrite decide_False by congruence. f_equal. apply IH, Hnin.
Qed.

Lemma Map_size_delete key m : Map_size (Map_delete key m) <= Map_size m.
Proof.
  unfold Map_size. induction m as [| [k w] m IH]; simpl; [lia |].
  destruct (decide (k = key)); simpl; lia.
Qed.

Lemma Map_size_set key v m : Map_size (Map_set key v m) <= S (Map_size m).
Proof.
  unfold Map_size. induction m as [| [k w] m IH]; simpl; [lia |].
  destruct (decide (k = key)); simpl; lia.
Qed.

Lemma Map_size_keys m : length (Map_keys m) = Map_size m.
Proof. unfold Map_keys, Map_size. apply length_fmap. Qed.
End JSMapFacts.

(** * Lemmas: the bounds cache *)

Lemma filter_ne_absent (key : string) (l : list string) :
  key ∉ l -> filter (fun k => k ≠ key) l = l.
Proof.
  induction l as [| k l IH]; [reflexivity |].
  rewrite not_elem_of_cons. intros [Hne Hnin].
  rewrite filter_cons_True by congruence. f_equal. apply IH, Hnin.
Qed.

Lemma StronglySorted_filter {X : Type} (R : relation X) (P : X -> Prop)
  `{!forall x, Decision (P x)} (l : list X) :
  StronglySorted R l -> StronglySorted R (filter P l).
Proof.
  induction 1 as [| x l Hs IH Hx]; [constructor |].
  rewrite filter_cons. destruct (decide (P x)); [| exact IH].
  constructor; [exact IH |]. apply Forall_forall. intros y Hy.
  apply list_elem_of_filter in Hy. destruct Hy as [_ Hy].
  rewrite Forall_forall in Hx. apply Hx, Hy.
Qed.

Lemma StronglySorted_weaken {X : Type} (R R' : relation X) (l : list X) :
  (forall x y, x ∈ l -> y ∈ l -> R x y -> R' x y) ->
  StronglySorted R l -> StronglySorted R' l.
Proof.
  intros Himp Hs. induction Hs as [| x l Hs IH Hx]; [constructor |].
  constructor.
  - apply IH. intros y z Hy Hz. apply Himp; apply list_elem_of_further;
      assumption.
  - rewrite Forall_forall in *. intros y Hy.
    apply Himp; [apply list_elem_of_here | apply list_elem_of_further, Hy |].
    apply Hx, Hy.
Qed.

Section CacheFacts.
Context {A : Type}.
Implicit Types (c : BoundsCache.t A) (b : MapBounds) (d : A) (now : Z).
Implicit Types (o : BoundsCache.op A) (os : list (BoundsCache.op A)).

Lemma cache_evicted_keys c :
  NoDup (BoundsCache.keys c) ->
  Map_keys (BoundsCache.evictOldest c) =
  if (BoundsCache.maxSize c <=? BoundsCache.size c)%nat
  then tail (BoundsCache.keys c) else BoundsCache.keys c.
Proof.
  unfold BoundsCache.keys, BoundsCache.size, BoundsCache.evictOldest.
  intros Hnd.
  destruct (BoundsCache.maxSize c <=? Map_size (BoundsCache.cache c))%nat;
    [| reflexivity].
  destruct (Map_keys (BoundsCache.cache c)) as [| k ks] eqn:E;
    [exact E |].
  rewrite Map_keys_delete, E. rewrite filter_cons_False by tauto.
  apply NoDup_cons in Hnd. destruct Hnd as [Hk _]. simpl.
  apply filter_ne_absent, Hk.
Qed.

Lemma cache_keys_set_fresh c b d now :
  NoDup (BoundsCache.keys c) ->
  boundsToKey b ∉ BoundsCache.keys c ->
  BoundsCache.keys (BoundsCache.set c b d now) =
  (if (BoundsCache.maxSize c <=? BoundsCache.size c)%nat
   then tail (BoundsCache.keys c) else BoundsCache.keys c)
  ++ [boundsToKey b].
Proof.
  intros Hnd Hfresh. unfold BoundsCache.keys at 1, BoundsCache.set.
  cbn [BoundsCache.cache]. rewrite Map_keys_set, cache_evicted_keys by done.
  rewrite decide_False; [reflexivity |].
  destruct (BoundsCache.maxSize c <=? BoundsCache.size c)%nat;
    [| exact Hfresh].
  intros Hin. apply Hfresh. destruct (BoundsCache.keys c); [exact Hin |].
  apply list_elem_of_further, Hin.
Qed.

(** Re-inserting a signature that is present, below capacity: the entry
    stays where it is. *)
Lemma cache_keys_set_present c b d now :
  boundsToKey b ∈ BoundsCache.keys c ->
  (BoundsCache.size c < BoundsCache.maxSize c)%nat ->
  BoundsCache.keys (BoundsCache.set c b d now) = BoundsCache.keys c.
Proof.
  intros Hin Hlt.
  unfold BoundsCache.keys, BoundsCache.set, BoundsCache.evictOldest in *.
  unfold BoundsCache.size in Hlt. cbn [BoundsCache.cache].
  apply Nat.leb_gt in Hlt. rewrite Hlt, Map_keys_set.
  rewrite decide_True by exact Hin. reflexivity.
Qed.

Lemma cache_get_set c b d now :
  Map_get (boundsToKey b) (BoundsCache.cache (BoundsCache.set c b d now)) =
  Some (BoundsCache.mkCacheEntry d now b).
Proof. unfold BoundsCache.set. cbn [BoundsCache.cache]. apply Map_get_set. Qed.

Lemma cache_get_miss c b :
  boundsToKey b ∉ BoundsCache.keys c -> BoundsCache.get c b = (None, c).
Proof.
  intros Hn. unfold BoundsCache.get.
  apply Map_get_None in Hn. rewrite Hn. reflexivity.
Qed.

Lemma cache_get_hit c b :
  boundsToKey b ∈ BoundsCache.keys c ->
  exists e, Map_get (boundsToKey b) (BoundsCache.cache c) = Some e /\
    (BoundsCache.get c b).1 = Some (BoundsCache.data e) /\
    BoundsCache.keys (BoundsCache.get c b).2 =
      filter (fun k => k ≠ boundsToKey b) (BoundsCache.keys c)
      ++ [boundsToKey b].
Proof.
  intros Hin. unfold BoundsCache.get.
  destruct (Map_get (boundsToKey b) (BoundsCache.cache c)) as [e |] eqn:E.
  - exists e. repeat split. unfold BoundsCache.keys.
    cbn [snd BoundsCache.cache]. rewrite Map_keys_set, Map_keys_delete.
    rewrite decide_False; [reflexivity |].
    rewrite list_elem_of_filter. tauto.
  - apply Map_get_None in E. contradiction.
Qed.

Lemma cache_maxSize_set c b d now :
  BoundsCache.maxSize (BoundsCache.set c b d now) = BoundsCache.maxSize c.
Proof. reflexivity. Qed.

Lemma cache_maxSize_get c b :
  BoundsCache.maxSize (BoundsCache.get c b).2 = BoundsCache.maxSize c.
Proof.
  unfold BoundsCache.get. destruct (Map_get _ _); reflexivity.
Qed.

Lemma cache_size_set c b d now :
  (0 < BoundsCache.maxSize c)%nat ->
  (BoundsCache.size c <= BoundsCache.maxSize c)%nat ->
  (BoundsCache.size (BoundsCache.set c b d now) <= BoundsCache.maxSize c)%nat.
Proof.
  unfold BoundsCache.size, BoundsCache.set, BoundsCache.evictOldest.
  cbn [BoundsCache.cache]. intros Hpos Hle.
  etransitivity; [apply Map_size_set |].
  destruct (BoundsCache.maxSize c <=? Map_size (BoundsCache.cache c))%nat
    eqn:E.
  - apply Nat.leb_le in E.
    destruct (BoundsCache.cache c) as [| [k e] m] eqn:Ec.
    + simpl in *. lia.
    + cbn [Map_keys fmap list_fmap fst Map_delete].
      rewrite decide_True by reflexivity.
      pose proof (Map_size_delete k m). unfold Map_size in *. simpl in *. lia.
  - apply Nat.leb_gt in E. lia.
Qed.

Lemma cache_size_get c b :
  (BoundsCache.size (BoundsCache.get c b).2 <= BoundsCache.size c)%nat.
Proof.
  unfold BoundsCache.get, BoundsCache.size.
  destruct (Map_get _ _) as [e |] eqn:E; cbn [snd BoundsCache.cache]; [| lia].
  apply Map_get_Some_elem in E.
  rewrite <- !Map_size_keys, Map_keys_set, Map_keys_delete.
  rewrite decide_False by (rewrite list_elem_of_filter; tauto).
  rewrite length_app. simpl.
  assert (H : forall l : list string, boundsToKey b ∈ l ->
    (length (filter (fun k => k ≠ boundsToKey b) l) + 1 <= length l)%nat).
  { clear. induction l as [| k l IH]; intros Hin.
    - apply elem_of_nil in Hin. contradiction.
    - rewrite filter_cons.
      destruct (decide (k ≠ boundsToKey b)) as [Hne | He].
      + apply elem_of_cons in Hin. destruct Hin as [Hk | Hin]; [congruence |].
        simpl. specialize (IH Hin). lia.
      + pose proof (length_filter (fun k => k ≠ boundsToKey b) l).
        simpl. lia. }
  apply H, E.
Qed.

Lemma cache_NoDup_set c b d now :
  NoDup (BoundsCache.keys c) ->
  NoDup (BoundsCache.keys (BoundsCache.set c b d now)).
Proof.
  intros Hnd. unfold BoundsCache.keys at 1, BoundsCache.set.
  cbn [BoundsCache.cache]. rewrite Map_keys_set.
  assert (Hev : NoDup (Map_keys (BoundsCache.evictOldest c))).
  { rewrite cache_evicted_keys by done.
    destruct (BoundsCache.maxSize c <=? BoundsCache.size c)%nat; [| done].
    destruct (BoundsCache.keys c); [done |].
    apply NoDup_cons in Hnd. tauto. }
  destruct (decide _) as [Hin | Hnin]; [exact Hev |].
  apply NoDup_app. repeat split; [exact Hev | | apply NoDup_singleton].
  intros k Hk Hk'. apply list_elem_of_singleton in Hk'. congruence.
Qed.

Lemma cache_NoDup_get c b :
  NoDup (BoundsCache.keys c) ->
  NoDup (BoundsCache.keys (BoundsCache.get c b).2).
Proof.
  intros Hnd.
  destruct (decide (boundsToKey b ∈ BoundsCache.keys c)) as [Hin | Hn].
  - destruct (cache_get_hit c b Hin) as (e & _ & _ & ->).
    apply NoDup_app. repeat split;
      [apply NoDup_filter, Hnd | | apply NoDup_singleton].
    intros k Hk Hk'. apply list_elem_of_singleton in Hk'.
    apply list_elem_of_filter in Hk. tauto.
  - rewrite cache_get_miss by done. exact Hnd.
Qed.

(** Every cache the methods produce from [new BoundsCache()] holds at most
    50 entries, under distinct signatures. *)
Lemma cache_reachable_inv c :
  BoundsCache.reachable c ->
  BoundsCache.maxSize c = 50%nat /\
  (BoundsCache.size c <= 50)%nat /\
  NoDup (BoundsCache.keys c).
Proof.
  induction 1 as [| c b d now Hr (Hm & Hs & Hnd)
                  | c b Hr (Hm & Hs & Hnd) | c Hr (Hm & Hs & Hnd)].
  - repeat split; [unfold BoundsCache.size, Map_size; simpl; lia | constructor].
  - repeat split; [exact Hm | | apply cache_NoDup_set, Hnd].
    rewrite <- Hm. apply cache_size_set; lia.
  - repeat split; [rewrite cache_maxSize_get; exact Hm | |
                   apply cache_NoDup_get, Hnd].
    pose proof (cache_size_get c b). lia.
  - repeat split;
      [exact Hm | unfold BoundsCache.size, Map_size; simpl; lia | constructor].
Qed.
End CacheFacts.

Section CacheRecency.
Context {A : Type}.
Implicit Types (c : BoundsCache.t A) (b : MapBounds) (d : A) (now : Z).
Implicit Types (o : BoundsCache.op A) (os : list (BoundsCache.op A)).

Lemma cache_run_snoc os o c :
  BoundsCache.run (os ++ [o]) c = BoundsCache.step (BoundsCache.run os c) o.
Proof. unfold BoundsCache.run. apply fold_left_app. Qed.

Lemma last_use_snoc os o key :
  BoundsCache.last_use (os ++ [o]) key =
  if decide (BoundsCache.op_key o = key) then S (length os)
  else BoundsCache.last_use os key.
Proof.
  induction os as [| a os IH].
  - simpl. destruct (decide (BoundsCache.op_key o = key)); reflexivity.
  - cbn [app BoundsCache.last_use]. rewrite IH.
    destruct (decide (BoundsCache.op_key o = key)); reflexivity.
Qed.

Lemma last_use_le os key : (BoundsCache.last_use os key <= length os)%nat.
Proof.
  induction os as [| a os IH]; simpl; [lia |].
  destruct (BoundsCache.last_use os key);
    [destruct (decide _); lia | lia].
Qed.

Lemma inserts_fresh_snoc os o c :
  BoundsCache.inserts_fresh (os ++ [o]) c <->
  BoundsCache.inserts_fresh os c /\
  match o with
  | BoundsCache.OpSet b _ _ =>
      boundsToKey b ∉ BoundsCache.keys (BoundsCache.run os c)
  | BoundsCache.OpGet _ => True
  end.
Proof.
  revert c. induction os as [| a os IH]; intros c.
  - simpl. tauto.
  - cbn [app BoundsCache.inserts_fresh]. rewrite IH. simpl. tauto.
Qed.

(** Appending the key just used after older keys keeps the order by last
    use. *)
Lemma recency_extend os o (base : list string) :
  StronglySorted (BoundsCache.used_before os) base ->
  (forall k, k ∈ base -> k ≠ BoundsCache.op_key o) ->
  StronglySorted (BoundsCache.used_before (os ++ [o])) base /\
  StronglySorted (BoundsCache.used_before (os ++ [o]))
    (base ++ [BoundsCache.op_key o]).
Proof.
  intros Hs Hne.
  assert (Hbase : StronglySorted (BoundsCache.used_before (os ++ [o])) base).
  { eapply StronglySorted_weaken; [| exact Hs].
    intros x y Hx Hy. unfold BoundsCache.used_before.
    rewrite !last_use_snoc.
    rewrite !decide_False by (apply not_eq_sym, Hne; assumption). tauto. }
  split; [exact Hbase |].
  apply StronglySorted_app_2; [| exact Hbase | repeat constructor].
  intros x y Hx Hy. apply list_elem_of_singleton in Hy. subst y.
  unfold BoundsCache.used_before. rewrite !last_use_snoc.
  rewrite decide_False by (apply not_eq_sym, Hne; assumption).
  rewrite decide_True by reflexivity.
  pose proof (last_use_le os x). lia.
Qed.

(** From an empty cache, through insertions of new signatures and [get]s,
    the entries are in the order of their last use, the least recently
    used first. *)
Lemma cache_recency_order os c0 :
  BoundsCache.cache c0 = [] ->
  BoundsCache.inserts_fresh os c0 ->
  NoDup (BoundsCache.keys (BoundsCache.run os c0)) /\
  StronglySorted (BoundsCache.used_before os)
    (BoundsCache.keys (BoundsCache.run os c0)).
Proof.
  intros Hempty. induction os as [| o os IH] using rev_ind; intros Hfresh.
  - unfold BoundsCache.run, BoundsCache.keys. simpl. rewrite Hempty.
    split; constructor.
  - apply inserts_fresh_snoc in Hfresh. destruct Hfresh as [Hfr Ho].
    destruct (IH Hfr) as [Hnd Hs]. rewrite cache_run_snoc.
    set (c := BoundsCache.run os c0) in *.
    destruct o as [b d now | b]; cbn [BoundsCache.step].
    + split; [apply cache_NoDup_set, Hnd |].
      rewrite cache_keys_set_fresh by assumption.
      apply (recency_extend os (BoundsCache.OpSet b d now)).
      * destruct (BoundsCache.maxSize c <=? BoundsCache.size c)%nat;
          [| exact Hs].
        destruct (BoundsCache.keys c); [constructor |].
        apply StronglySorted_inv in Hs. tauto.
      * intros k Hk ->. apply Ho. simpl.
        destruct (BoundsCache.maxSize c <=? BoundsCache.size c)%nat;
          [| exact Hk].
        destruct (BoundsCache.keys c); [exact Hk |].
        apply list_elem_of_further, Hk.
    + split; [apply cache_NoDup_get, Hnd |].
      destruct (decide (boundsToKey b ∈ BoundsCache.keys c)) as [Hin | Hn].
      * destruct (cache_get_hit c b Hin) as (e & _ & _ & ->).
        apply (recency_extend os (BoundsCache.OpGet b)).
        -- apply StronglySorted_filter, Hs.
        -- intros k Hk. apply list_elem_of_filter in Hk. simpl. tauto.
      * rewrite cache_get_miss by done. simpl.
        apply (recency_extend os (BoundsCache.OpGet b)); [exact Hs |].
        intros k Hk ->. apply Hn, Hk.
Qed.

(** Inserting distinct new signatures into an empty cache, up to its
    capacity, keeps them all, in insertion order. *)
Lemma cache_fill (entries : list (MapBounds * A * Z)) c :
  NoDup (BoundsCache.keys c ++ (BoundsCache.entry_key <$> entries)) ->
  (BoundsCache.size c + length entries <= BoundsCache.maxSize c)%nat ->
  BoundsCache.keys (BoundsCache.insert_all entries c) =
  BoundsCache.keys c ++ (BoundsCache.entry_key <$> entries).
Proof.
  revert c. induction entries as [| [[b d] now] entries IH]; intros c Hnd Hle.
  - simpl. rewrite app_nil_r. reflexivity.
  - unfold BoundsCache.insert_all in *.
    cbn [fold_left fmap list_fmap] in *.
    unfold BoundsCache.insert at 2, BoundsCache.entry_key at 2.
    unfold BoundsCache.entry_key at 1 in Hnd.
    cbn [fst snd] in *.
    assert (Hc : NoDup (BoundsCache.keys c)).
    { apply NoDup_app in Hnd. tauto. }
    assert (Hb : boundsToKey b ∉ BoundsCache.keys c).
    { apply NoDup_app in Hnd. destruct Hnd as (_ & Hd & _).
      intros Hin. apply (Hd _ Hin). apply list_elem_of_here. }
    assert (Hk : BoundsCache.keys (BoundsCache.set c b d now) =
                 BoundsCache.keys c ++ [boundsToKey b]).
    { rewrite cache_keys_set_fresh by assumption.
      replace (BoundsCache.maxSize c <=? BoundsCache.size c)%nat with false;
        [reflexivity |].
      symmetry. apply Nat.leb_gt. simpl in Hle. lia. }
    rewrite IH.
    + rewrite Hk, <- app_assoc. reflexivity.
    + rewrite Hk, <- app_assoc. exact Hnd.
    + rewrite cache_maxSize_set. unfold BoundsCache.size in *.
      rewrite <- Map_size_keys in *. fold (BoundsCache.keys c) in *.
      fold (BoundsCache.keys (BoundsCache.set c b d now)).
      rewrite Hk, length_app. simpl in *. lia.
Qed.
End CacheRecency.

Section CacheTheorems.
Context {A : Type}.
Implicit Types (c : BoundsCache.t A) (b : MapBounds) (d : A) (now : Z).
Implicit Types (entries : list (MapBounds * A * Z)).

Lemma cache_maxSize_run (os : list (BoundsCache.op A)) c :
  BoundsCache.maxSize (BoundsCache.run os c) = BoundsCache.maxSize c.
Proof.
  revert c. induction os as [| o os IH]; intros c; [reflexivity |].
  unfold BoundsCache.run in *. cbn [fold_left]. rewrite IH.
  destruct o; [reflexivity | apply cache_maxSize_get].
Qed.

Lemma cache_size_keys c : length (BoundsCache.keys c) = BoundsCache.size c.
Proof. apply Map_size_keys. Qed.

(** Below capacity, insertions of other signatures leave an entry as it
    is. *)
Lemma cache_fill_get entries c key :
  key ∉ BoundsCache.entry_key <$> entries ->
  (BoundsCache.size c + length entries <= BoundsCache.maxSize c)%nat ->
  Map_get key (BoundsCache.cache (BoundsCache.insert_all entries c)) =
  Map_get key (BoundsCache.cache c).
Proof.
  revert c. induction entries as [| [[b d] now] entries IH]; intros c Hk Hle;
    [reflexivity |].
  unfold BoundsCache.insert_all in *. cbn [fold_left fmap list_fmap] in *.
  unfold BoundsCache.insert at 2. unfold BoundsCache.entry_key at 1 in Hk.
  cbn [fst snd] in *.
  apply not_elem_of_cons in Hk. destruct Hk as [Hne Hk].
  assert (Hlt : (BoundsCache.maxSize c <=? BoundsCache.size c)%nat = false).
  { apply Nat.leb_gt. simpl in Hle. lia. }
  rewrite IH; [| exact Hk |].
  - unfold BoundsCache.set, BoundsCache.evictOldest. cbn [BoundsCache.cache].
    unfold BoundsCache.size in Hlt. rewrite Hlt.
    apply Map_get_set_ne. congruence.
  - rewrite cache_maxSize_set.
    pose proof (Map_size_set (boundsToKey b)
                  (BoundsCache.mkCacheEntry d now b) (BoundsCache.cache c)).
    unfold BoundsCache.size, BoundsCache.set, BoundsCache.evictOldest in *.
    cbn [BoundsCache.cache]. rewrite Hlt. simpl in Hle. lia.
Qed.

Lemma cache_maxSize_insert_all entries c :
  BoundsCache.maxSize (BoundsCache.insert_all entries c) =
  BoundsCache.maxSize c.
Proof.
  revert c. induction entries as [| e entries IH]; intros c; [reflexivity |].
  unfold BoundsCache.insert_all in *. cbn [fold_left]. rewrite IH.
  reflexivity.
Qed.

(** X30: a cache made by [new BoundsCache()] and used through its methods
    never holds more than 50 entries; after a history in which every [set]
    inserts a signature that is not in the cache at that moment, and with
    any [get]s, an insertion into the full cache removes exactly the first
    entry, whose last use ([set] or [get]) is older than that of every
    other entry; and when a cache of capacity N receives N+1 entries of
    distinct signatures, the first being read with [get] just before the
    last insertion, the second entry is the one evicted and the first one
    stays. *)
Theorem cache_capacity_lru :
  (forall c, BoundsCache.reachable c -> (BoundsCache.size c <= 50)%nat) /\
  (forall (os : list (BoundsCache.op A)) b d now,
      BoundsCache.inserts_fresh os BoundsCache.new ->
      let c := BoundsCache.run os BoundsCache.new in
      BoundsCache.size c = 50%nat ->
      boundsToKey b ∉ BoundsCache.keys c ->
      exists victim rest,
        BoundsCache.keys c = victim :: rest /\
        BoundsCache.keys (BoundsCache.set c b d now) =
          rest ++ [boundsToKey b] /\
        forall k, k ∈ rest -> BoundsCache.used_before os victim k) /\
  (forall (e1 e2 : MapBounds * A * Z) entries (e_last : MapBounds * A * Z),
      NoDup (BoundsCache.entry_key <$> e1 :: e2 :: entries ++ [e_last]) ->
      let c0 := BoundsCache.mkBoundsCache [] (S (S (length entries))) in
      let full := BoundsCache.insert_all (e1 :: e2 :: entries) c0 in
      let read := BoundsCache.get full (e1.1.1) in
      let c := BoundsCache.insert (read.2) e_last in
      BoundsCache.size full = BoundsCache.maxSize c0 /\
      read.1 = Some (e1.1.2) /\
      BoundsCache.keys c =
        (BoundsCache.entry_key <$> entries) ++
        [BoundsCache.entry_key e1; BoundsCache.entry_key e_last] /\
      (BoundsCache.entry_key e2 ∉ BoundsCache.keys c) /\
      (BoundsCache.entry_key e1 ∈ BoundsCache.keys c) /\
      BoundsCache.size c = BoundsCache.maxSize c0).
Proof.
  split; [| split].
  - intros c Hr. apply cache_reachable_inv in Hr. tauto.
  - intros os b d now Hfresh c Hsize Hb.
    destruct (cache_recency_order os BoundsCache.new eq_refl Hfresh)
      as [Hnd Hs]. fold c in Hnd, Hs.
    assert (Hmax : BoundsCache.maxSize c = 50%nat)
      by apply cache_maxSize_run.
    destruct (BoundsCache.keys c) as [| victim rest] eqn:Ek.
    { apply (f_equal length) in Ek. rewrite cache_size_keys in Ek.
      simpl in Ek. lia. }
    exists victim, rest. split; [reflexivity |]. split.
    + rewrite cache_keys_set_fresh by (rewrite ?Ek; assumption).
      rewrite Hmax, Hsize, Ek. reflexivity.
    + apply StronglySorted_inv in Hs. destruct Hs as [_ Hall].
      rewrite Forall_forall in Hall. exact Hall.
  - intros e1 e2 entries e_last Hnd c0 full read c.
    set (key := @BoundsCache.entry_key A) in *.
    set (ks := key <$> entries) in *.
    assert (Hnd' : NoDup (key e1 :: key e2 :: ks ++ [key e_last])).
    { unfold ks. rewrite !fmap_cons, fmap_app in Hnd. exact Hnd. }
    assert (Hfull : BoundsCache.keys full = key e1 :: key e2 :: ks).
    { unfold full. rewrite (cache_fill (e1 :: e2 :: entries) c0).
      - reflexivity.
      - simpl. rewrite !app_comm_cons in Hnd'. apply NoDup_app in Hnd'.
        tauto.
      - simpl. lia. }
    assert (Hsize : BoundsCache.size full = S (S (length entries))).
    { rewrite <- cache_size_keys, Hfull. simpl. unfold ks.
      rewrite length_fmap. reflexivity. }
    assert (Hin1 : key e1 ∈ BoundsCache.keys full).
    { rewrite Hfull. apply list_elem_of_here. }
    destruct (cache_get_hit full (e1.1.1) Hin1) as (e & He & Hread & Hkeys).
    fold read in Hread, Hkeys.
    change (boundsToKey (e1.1.1)) with (key e1) in Hkeys, He.
    assert (Hk1 : key e1 ∉ key e2 :: ks).
    { apply NoDup_cons in Hnd'. destruct Hnd' as [Hn _].
      intros Hin. apply Hn. rewrite app_comm_cons.
      apply elem_of_app. left. exact Hin. }
    assert (Hkeys1 : BoundsCache.keys (read.2) = key e2 :: ks ++ [key e1]).
    { rewrite Hkeys, Hfull. rewrite filter_cons_False by tauto.
      rewrite filter_ne_absent by exact Hk1. reflexivity. }
    assert (Hnd1 : NoDup (BoundsCache.keys (read.2))).
    { apply cache_NoDup_get. rewrite Hfull.
      rewrite !app_comm_cons in Hnd'. apply NoDup_app in Hnd'. tauto. }
    assert (Hlast : key e_last ∉ BoundsCache.keys (read.2)).
    { rewrite Hkeys1. rewrite !app_comm_cons in Hnd'.
      apply NoDup_app in Hnd'. destruct Hnd' as (_ & Hd & _).
      intros Hin. rewrite app_comm_cons in Hin.
      apply elem_of_app in Hin. destruct Hin as [Hin | Hin].
      - apply (Hd (key e_last)); [| apply list_elem_of_here].
        apply list_elem_of_further. exact Hin.
      - apply list_elem_of_singleton in Hin.
        apply (Hd (key e1)); [apply list_elem_of_here |].
        rewrite <- Hin. apply list_elem_of_here. }
    assert (Hsize1 : BoundsCache.size (read.2) = S (S (length entries))).
    { rewrite <- cache_size_keys, Hkeys1. simpl. rewrite length_app.
      unfold ks. rewrite length_fmap. simpl. lia. }
    assert (Hc : BoundsCache.keys c = ks ++ [key e1; key e_last]).
    { unfold c, BoundsCache.insert.
      rewrite cache_keys_set_fresh by assumption.
      unfold read at 1. rewrite cache_maxSize_get.
      unfold full at 1. rewrite cache_maxSize_insert_all.
      cbn [BoundsCache.maxSize c0].
      rewrite Hsize1, Nat.leb_refl, Hkeys1. simpl.
      rewrite <- app_assoc. reflexivity. }
    split; [exact Hsize |]. split.
    { rewrite Hread. f_equal.
      assert (Hget : Map_get (key e1) (BoundsCache.cache full) =
                     Some (BoundsCache.mkCacheEntry (e1.1.2) (e1.2) (e1.1.1))).
      { unfold full, BoundsCache.insert_all. cbn [fold_left].
        fold (BoundsCache.insert_all entries
                (BoundsCache.insert (BoundsCache.insert c0 e1) e2)).
        change (BoundsCache.insert_all entries
                  (BoundsCache.insert (BoundsCache.insert c0 e1) e2))
          with (BoundsCache.insert_all (e2 :: entries)
                  (BoundsCache.insert c0 e1)).
        rewrite (cache_fill_get (e2 :: entries)).
        - apply cache_get_set.
        - exact Hk1.
        - unfold BoundsCache.insert. rewrite cache_maxSize_set. simpl. lia. }
      rewrite Hget in He. injection He as <-. reflexivity. }
    split; [exact Hc |]. split; [| split].
    + rewrite Hc. apply NoDup_cons in Hnd'. destruct Hnd' as [_ Hnd'].
      apply NoDup_cons in Hnd'. destruct Hnd' as [Hn2 _].
      intros Hin. apply elem_of_app in Hin. destruct Hin as [Hin | Hin].
      * apply Hn2, elem_of_app. left. exact Hin.
      * apply elem_of_cons in Hin. destruct Hin as [Heq | Hin].
        -- apply Hk1. rewrite <- Heq. apply list_elem_of_here.
        -- apply Hn2, elem_of_app. right. exact Hin.
    + rewrite Hc. apply elem_of_app. right. apply list_elem_of_here.
    + rewrite <- cache_size_keys, Hc, length_app. unfold ks.
      rewrite length_fmap. simpl. lia.
Qed.
End CacheTheorems.

#[local] Instance inserts_fresh_dec {A : Type}
  (os : list (BoundsCache.op A)) (c : BoundsCache.t A) :
  Decision (BoundsCache.inserts_fresh os c).
Proof.
  revert c. induction os as [| o os IH]; intros c; simpl.
  - left. exact I.
  - destruct o; apply and_dec; try apply IH; apply _.
Defined.

Lemma cache_capacity_lru_witness :
  let os := (fun i => BoundsCache.OpSet (sample_entry i).1.1 i (Z.of_nat i))
              <$> seq 1 50 in
  let read :=
    BoundsCache.get
      (BoundsCache.insert_all (sample_entry <$> seq 1 50) BoundsCache.new)
      (sample_entry 1).1.1 in
  let c := BoundsCache.insert (read.2) (sample_entry 51) in
  (exists victim rest,
      BoundsCache.keys (BoundsCache.run os BoundsCache.new) = victim :: rest /\
      BoundsCache.keys
        (BoundsCache.set (BoundsCache.run os BoundsCache.new)
           (sample_entry 51).1.1 51%nat 51) =
        rest ++ [boundsToKey (sample_entry 51).1.1] /\
      forall k, k ∈ rest -> BoundsCache.used_before os victim k) /\
  read.1 = Some 1%nat /\
  (BoundsCache.entry_key (sample_entry 2) ∉ BoundsCache.keys c) /\
  (BoundsCache.entry_key (sample_entry 1) ∈ BoundsCache.keys c) /\
  BoundsCache.size c = 50%nat.
Proof.
  intros os read c.
  destruct (@cache_capacity_lru nat) as (_ & Hlru & Hscenario).
  split.
  - apply (Hlru os (sample_entry 51).1.1 51%nat 51%Z).
    + apply (bool_decide_unpack _). vm_compute. exact I.
    + vm_compute. reflexivity.
    + apply (bool_decide_unpack _). vm_compute. exact I.
  - destruct (Hscenario (sample_entry 1) (sample_entry 2)
                (sample_entry <$> seq 3 48) (sample_entry 51))
      as (_ & Hread & _ & H2 & H1 & Hsize).
    + apply (bool_decide_unpack _). vm_compute. exact I.
    + repeat split; assumption.
Defined.

(** C3 (what the code does instead): [set] on a signature that is present
    replaces the payload and leaves the entry at its place in the order.
    With [a] inserted before [b], re-inserting [a] keeps [a] first, and 49
    later insertions of new signatures evict [a], the entry inserted last
    among the two, while [b] stays. *)
Theorem cache_reinsert_not_refreshed :
  let a := sample_entry 1 in
  let b := sample_entry 2 in
  let c := BoundsCache.insert
             (BoundsCache.insert_all [a; b] BoundsCache.new)
             (a.1.1, 100%nat, 3%Z) in
  let c' := BoundsCache.insert_all (sample_entry <$> seq 3 49) c in
  BoundsCache.keys c = [BoundsCache.entry_key a; BoundsCache.entry_key b] /\
  BoundsCache.data <$> Map_get (BoundsCache.entry_key a) (BoundsCache.cache c)
    = Some 100%nat /\
  (BoundsCache.entry_key a ∉ BoundsCache.keys c') /\
  (BoundsCache.entry_key b ∈ BoundsCache.keys c').
Proof.
  intros a b c c'. repeat split.
  - apply (bool_decide_unpack _). vm_compute. exact I.
  - apply (bool_decide_unpack _). vm_compute. exact I.
Qed.

(** C4 (what the code does instead): the size never exceeds the capacity,
    but the entry evicted from a full cache is the first in insertion
    order, which is not the least recently used one once a signature has
    been written twice.  After [set] of entry 1, of entry 2, of entry 1
    again and of entries 3 to 50, the cache is full, the last use of entry
    1 is the third of the history and that of entry 2 the second, older
    than that of every other entry; the insertion of entry 51 evicts
    entry 1 and keeps entry 2. *)
Theorem cache_reinsert_evicts_recent :
  let os := reinsert_history in
  let key := fun i => BoundsCache.entry_key (sample_entry i) in
  let c := BoundsCache.run os BoundsCache.new in
  let c' := BoundsCache.insert c (sample_entry 51) in
  BoundsCache.size c = 50%nat /\
  BoundsCache.last_use os (key 1%nat) = 3%nat /\
  BoundsCache.last_use os (key 2%nat) = 2%nat /\
  (forall k, k ∈ BoundsCache.keys c -> k ≠ key 2%nat ->
             BoundsCache.used_before os (key 2%nat) k) /\
  BoundsCache.size c' = 50%nat /\
  (key 1%nat ∉ BoundsCache.keys c') /\
  (key 2%nat ∈ BoundsCache.keys c').
Proof.
  intros os key c c'.
  split; [vm_compute; reflexivity |].
  split; [vm_compute; reflexivity |].
  split; [vm_compute; reflexivity |].
  split.
  { assert (Hall : Forall (fun k => k ≠ key 2%nat ->
                     (BoundsCache.last_use os (key 2%nat) <
                      BoundsCache.last_use os k)%nat) (BoundsCache.keys c)).
    { apply (bool_decide_unpack _). vm_compute. exact I. }
    rewrite Forall_forall in Hall. exact Hall. }
  split; [vm_compute; reflexivity |].
  split; apply (bool_decide_unpack _); vm_compute; exact I.
Qed.

(** * Lemmas: the geometry converter *)

Lemma num_neq_false (x y : number) : num_neq x y = false <-> (x == y)%Q.
Proof. unfold num_neq. rewrite negb_false_iff. apply Qeq_bool_iff. Qed.

Lemma invalidCoord_false (p : number * number) :
  invalidCoord p = false <-> in_home_box p.
Proof.
  unfold invalidCoord, in_home_box, num_gt.
  rewrite !orb_false_iff, !num_lt_false.
  cbn [fst snd]. split; intros H; decompose [and] H; repeat split; lra.
Qed.

Lemma existsb_invalidCoord_false (coords : list (number * number)) :
  existsb invalidCoord coords = false <-> Forall in_home_box coords.
Proof.
  induction coords as [| p coords IH]; simpl.
  - split; [constructor | reflexivity].
  - rewrite orb_false_iff, IH, invalidCoord_false, Forall_cons. tauto.
Qed.

Lemma nodeCoords_way_nodes (pts : list (number * number)) :
  nodeCoords (way_nodes pts) = pts.
Proof.
  unfold nodeCoords, way_nodes. induction pts as [| [x y] pts IH];
    [reflexivity |].
  rewrite fmap_cons. simpl. f_equal. exact IH.
Qed.

(** [closeRing] returns the coordinates, or the coordinates with a copy of
    their first point at the end. *)
Lemma closeRing_cases (coords : list (number * number)) :
  (ring_closed coords /\ closeRing coords = coords) \/
  (~ ring_closed coords /\
   exists p, head coords = Some p /\ closeRing coords = coords ++ [p]) \/
  (coords = [] /\ closeRing coords = []).
Proof.
  unfold closeRing, ring_closed.
  destruct coords as [| p coords]; [right; right; split; reflexivity |].
  cbn [head]. destruct (last (p :: coords)) as [q |] eqn:El.
  - destruct (num_neq p.1 q.1) eqn:E1; cbn [orb].
    + right. left. split.
      * intros [H _]. apply num_neq_false in H. congruence.
      * exists p. split; [reflexivity |]. destruct p; reflexivity.
    + apply num_neq_false in E1. destruct (num_neq p.2 q.2) eqn:E2.
      * right. left. split.
        -- intros [_ H]. apply num_neq_false in H. congruence.
        -- exists p. split; [reflexivity |]. destruct p; reflexivity.
      * apply num_neq_false in E2. left. split; [split; assumption |].
        reflexivity.
  - apply last_None in El. discriminate.
Qed.

Lemma closeRing_closed (coords : list (number * number)) :
  coords ≠ [] -> ring_closed (closeRing coords).
Proof.
  intros Hne. destruct (closeRing_cases coords)
    as [[Hc ->] | [(Hn & p & Hp & ->) | [-> _]]];
    [exact Hc | | congruence].
  unfold ring_closed. rewrite last_snoc.
  destruct coords as [| q coords]; [discriminate |].
  simpl in *. injection Hp as ->. split; reflexivity.
Qed.

Lemma closeRing_length (coords : list (number * number)) :
  (ring_closed coords -> length (closeRing coords) = length coords) /\
  (coords ≠ [] -> ~ ring_closed coords ->
   length (closeRing coords) = S (length coords)).
Proof.
  destruct (closeRing_cases coords)
    as [[Hc ->] | [(Hn & p & Hp & ->) | [-> _]]].
  - split; [reflexivity | tauto].
  - split; [tauto |]. intros _ _. rewrite length_app. simpl. lia.
  - split; [reflexivity | congruence].
Qed.

Lemma closeRing_Forall (P : number * number -> Prop)
  (coords : list (number * number)) :
  Forall P coords -> Forall P (closeRing coords).
Proof.
  intros HP. destruct (closeRing_cases coords)
    as [[Hc ->] | [(Hn & p & Hp & ->) | [-> ->]]];
    [exact HP | | constructor].
  apply Forall_app. split; [exact HP |]. constructor; [| constructor].
  destruct coords as [| q coords]; [discriminate |]. simpl in Hp.
  injection Hp as ->. apply Forall_cons in HP. tauto.
Qed.

(** What it takes for the callback to push a feature, and what it
    pushes. *)
Lemma convertElement_Some (element : OSMElement) (f : ViennaBuilding) :
  convertElement element = Some f <->
  exists geometry0 tags0,
    geometry element = Some geometry0 /\ tags element = Some tags0 /\
    (hasStructureTag tags0 = true \/
     (type element = "way" /\ (3 < length geometry0)%nat)) /\
    let coords := extractCoords element geometry0 in
    (4 <= length coords)%nat /\
    Forall in_home_box coords /\
    (length (closeRing coords) <= 100)%nat /\
    f = {| properties := buildingProperties tags0;
           coordinates := [closeRing coords] |}.
Proof.
  unfold convertElement.
  destruct (geometry element) as [g |]; [| split; [discriminate |];
    intros (g & t & Hg & _); discriminate].
  destruct (tags element) as [t |]; [| split; [discriminate |];
    intros (g' & t' & _ & Ht & _); discriminate].
  assert (Hskip :
    negb (hasStructureTag t) &&
    negb ((type element =? "way")%string && (3 <? length g)%nat) = false <->
    (hasStructureTag t = true \/
     (type element = "way" /\ (3 < length g)%nat))).
  { rewrite andb_false_iff, !negb_false_iff, andb_true_iff.
    rewrite String.eqb_eq, Nat.ltb_lt. tauto. }
  destruct (negb (hasStructureTag t) && _) eqn:Eskip.
  { split; [discriminate |]. intros (g' & t' & [= <-] & [= <-] & H & _).
    apply Hskip in H. congruence. }
  destruct (length (extractCoords element g) <? 4)%nat eqn:Elen.
  { split; [discriminate |]. intros (g' & t' & [= <-] & [= <-] & _ & H & _).
    apply Nat.ltb_lt in Elen. lia. }
  apply Nat.ltb_ge in Elen.
  destruct (existsb invalidCoord (extractCoords element g)) eqn:Einv.
  { split; [discriminate |].
    intros (g' & t' & [= <-] & [= <-] & _ & _ & H & _).
    apply existsb_invalidCoord_false in H. congruence. }
  apply existsb_invalidCoord_false in Einv.
  destruct (100 <? length (closeRing (extractCoords element g)))%nat eqn:Ebig.
  { split; [discriminate |].
    intros (g' & t' & [= <-] & [= <-] & _ & _ & _ & H & _).
    apply Nat.ltb_lt in Ebig. lia. }
  apply Nat.ltb_ge in Ebig. split.
  - intros [= <-]. exists g, t. repeat split; try assumption.
    apply Hskip. reflexivity.
  - intros (g' & t' & [= <-] & [= <-] & _ & _ & _ & _ & ->). reflexivity.
Qed.

(** The loop returns when no entry is [null], and then with the features
    of the entries, in their order, after those it started from. *)
Lemma forEach_element_Returns (els : list (option OSMElement))
  (acc fs : list ViennaBuilding) :
  forEach_element els acc = Returns fs <->
  exists es, els = Some <$> es /\ fs = acc ++ omap convertElement es.
Proof.
  revert acc. induction els as [| [e |] els IH]; intros acc.
  - cbn [forEach_element]. split.
    + intros [= <-]. exists []. rewrite app_nil_r. split; reflexivity.
    + intros (es & Hes & ->). destruct es; [| discriminate].
      rewrite app_nil_r. reflexivity.
  - cbn [forEach_element]. rewrite IH. split.
    + intros (es & -> & ->). exists (e :: es). split; [reflexivity |].
      rewrite <- app_assoc. f_equal.
      change (omap convertElement (e :: es))
        with (match convertElement e with
              | Some f => f :: omap convertElement es
              | None => omap convertElement es
              end).
      destruct (convertElement e); reflexivity.
    + intros (es & Hes & ->). destruct es as [| e' es]; [discriminate |].
      rewrite fmap_cons in Hes. injection Hes as <- ->.
      exists es. split; [reflexivity |].
      rewrite <- app_assoc. f_equal.
      change (omap convertElement (e :: es))
        with (match convertElement e with
              | Some f => f :: omap convertElement es
              | None => omap convertElement es
              end).
      destruct (convertElement e); reflexivity.
  - cbn [forEach_element]. split; [discriminate |].
    intros (es & Hes & _). destruct es; discriminate.
Qed.

(** The loop raises when an entry is [null], at the read of its
    [geometry]. *)
Lemma forEach_element_Throws (els : list (option OSMElement))
  (acc : list ViennaBuilding) (property : string) :
  forEach_element els acc = ThrowsTypeError property <->
  None ∈ els /\ property = "geometry".
Proof.
  revert acc. induction els as [| [e |] els IH]; intros acc;
    cbn [forEach_element].
  - split; [discriminate |]. intros [H _]. apply elem_of_nil in H.
    contradiction.
  - rewrite IH, elem_of_cons. split; [tauto |].
    intros [[H | H] Hp]; [discriminate | tauto].
  - split.
    + intros [= <-]. split; [apply list_elem_of_here | reflexivity].
    + intros [_ ->]. reflexivity.
Qed.

Lemma convertOSMToGeoJSON_elem (data : option OSMData)
  (validBuildings : list ViennaBuilding) (f : ViennaBuilding) :
  convertOSMToGeoJSON data = Returns validBuildings ->
  (f ∈ validBuildings <->
   exists d els element,
     data = Some d /\ elements d = Some els /\ Some element ∈ els /\
     convertElement element = Some f).
Proof.
  unfold convertOSMToGeoJSON. destruct data as [d |]; [| discriminate].
  destruct (elements d) as [els |] eqn:Eels.
  - intros Hret. apply forEach_element_Returns in Hret.
    destruct Hret as (es & -> & ->). cbn [app].
    rewrite list_elem_of_omap. split.
    + intros (e & He & Hf). exists d, (Some <$> es), e.
      split; [reflexivity |]. split; [exact Eels |]. split; [| exact Hf].
      apply list_elem_of_fmap. exists e. tauto.
    + intros (d' & els' & e & [= <-] & Hels & He & Hf). exists e.
      rewrite Eels in Hels. injection Hels as <-.
      split; [| exact Hf]. apply list_elem_of_fmap in He.
      destruct He as (e' & [= <-] & He). exact He.
  - intros [= <-]. split; [intros H; apply elem_of_nil in H; contradiction |].
    intros (d' & els & e & [= <-] & H & _). congruence.
Qed.

(** ** [parseInt] on decimal numerals *)

Lemma digit_value_pretty (d : N) :
  (d < 10)%N -> digit_value (pretty_N_char d) = Some (Z.of_N d).
Proof.
  intros Hd.
  assert (H : (d = 0 \/ d = 1 \/ d = 2 \/ d = 3 \/ d = 4 \/ d = 5 \/ d = 6 \/
               d = 7 \/ d = 8 \/ d = 9)%N) by lia.
  repeat (destruct H as [-> | H]; [reflexivity |]). subst d. reflexivity.
Qed.

Lemma div_mod_10 (x : N) :
  Z.of_N x = (Z.of_N (x `div` 10) * 10 + Z.of_N (x `mod` 10))%Z.
Proof.
  pose proof (N.div_mod x 10) as H. rewrite H at 1 by discriminate.
  rewrite N2Z.inj_add, N2Z.inj_mul.
  generalize (Z.of_N (x `div` 10)) (Z.of_N (x `mod` 10)). intros a b.
  change (Z.of_N 10) with 10%Z. lia.
Qed.

Lemma parse_digits_pretty_go (x : N) (s : string) (acc : option Z) :
  (0 < x)%N -> default 0%Z acc = 0%Z ->
  parse_digits 10 (pretty_N_go x s) acc = parse_digits 10 s (Some (Z.of_N x)).
Proof.
  revert s. induction (N.lt_wf_0 x) as [x _ IH]. intros s Hx Hacc.
  rewrite pretty_N_go_step by exact Hx.
  assert (Hd : (x `mod` 10 < 10)%N) by (apply N.mod_lt; discriminate).
  assert (Hd' : (Z.of_N (x `mod` 10) <? 10)%Z = true).
  { apply Z.ltb_lt. change 10%Z with (Z.of_N 10). apply N2Z.inj_lt, Hd. }
  destruct (decide (x `div` 10 = 0)%N) as [E | E].
  - rewrite E, pretty_N_go_0. cbn [parse_digits].
    rewrite digit_value_pretty by exact Hd. rewrite Hd', Hacc.
    rewrite (div_mod_10 x), E. reflexivity.
  - rewrite IH; [| apply N.div_lt; [exact Hx | reflexivity] | | exact Hacc].
    + cbn [parse_digits]. rewrite digit_value_pretty by exact Hd.
      rewrite Hd'. do 2 f_equal. simpl. symmetry. apply div_mod_10.
    + destruct (x `div` 10)%N; [congruence | reflexivity].
Qed.

Lemma pretty_N_go_leading (x : N) (s : string) :
  (0 < x)%N ->
  exists d rest,
    (1 <= d <= 9)%N /\ pretty_N_go x s = String (pretty_N_char d) rest.
Proof.
  revert s. induction (N.lt_wf_0 x) as [x _ IH]. intros s Hx.
  rewrite pretty_N_go_step by exact Hx.
  destruct (decide (x `div` 10 = 0)%N) as [E | E].
  - rewrite E, pretty_N_go_0. exists (x `mod` 10)%N, s.
    split; [| reflexivity].
    pose proof (N.mod_lt x 10 ltac:(discriminate)) as Hlt.
    pose proof (N.div_mod x 10 ltac:(discriminate)) as H.
    rewrite E, N.mul_0_r, N.add_0_l in H. rewrite <- H in *.
    clear H E IH. lia.
  - apply IH; [apply N.div_lt; [exact Hx | reflexivity] |].
    destruct (x `div` 10)%N; [congruence | reflexivity].
Qed.

(** A string that starts with a character below U+0080 that is not white
    space has nothing to trim. *)
Lemma trim_start_plain (c : ascii) (s : string) :
  is_white_space c = false -> (nat_of_ascii c < 128)%nat ->
  trim_start (String c s) = String c s.
Proof.
  intros Hws Hc. cbn [trim_start]. rewrite Hws.
  assert (H2 : forall c2, is_white_space2 c c2 = false).
  { intros c2. unfold is_white_space2.
    destruct (Nat.eqb_spec (nat_of_ascii c) 194); [lia | reflexivity]. }
  assert (H3 : forall c2 c3, is_white_space3 c c2 c3 = false).
  { intros c2 c3. unfold is_white_space3.
    destruct (Nat.eqb_spec (nat_of_ascii c) 225); [lia |].
    destruct (Nat.eqb_spec (nat_of_ascii c) 226); [lia |].
    destruct (Nat.eqb_spec (nat_of_ascii c) 227); [lia |].
    destruct (Nat.eqb_spec (nat_of_ascii c) 239); [lia |]. reflexivity. }
  destruct s as [| c2 [| c3 s]]; rewrite ?H2, ?H3; reflexivity.
Qed.

(** Up to 2^53 every integer is a double. *)
Lemma nearest_double_exact (m : Z) :
  (0 < m <= 2 ^ 53)%Z -> nearest_double m = Some m.
Proof.
  intros [Hpos Hle].
  assert (Hbig : (2 ^ 53 < 2 ^ 1024)%Z) by (vm_compute; reflexivity).
  destruct (Z.log2_spec m Hpos) as [Hlow _].
  destruct (Z_le_gt_dec (Z.log2 m) 52) as [Hlog | Hlog].
  - unfold nearest_double.
    destruct (Z.leb_spec (Z.log2 m - 52) 0) as [_ | Hgt]; [| lia].
    destruct (Z.ltb_spec m (2 ^ 1024)) as [_ | Hge]; [reflexivity | lia].
  - assert (H53 : (2 ^ 53 <= 2 ^ Z.log2 m)%Z)
      by (apply Z.pow_le_mono_r; lia).
    assert (Hm : m = (2 ^ 53)%Z) by lia.
    rewrite Hm. vm_compute. reflexivity.
Qed.

Lemma integer_result_exact (sign m : Z) :
  (0 <= m <= 2 ^ 53)%Z -> sign = 1%Z \/ (sign = (-1)%Z /\ m ≠ 0%Z) ->
  integer_result sign m = Int (sign * m).
Proof.
  intros [Hpos Hle] Hsign. unfold integer_result.
  destruct (Z.eqb_spec m 0) as [-> | Hne].
  - destruct Hsign as [-> | [_ H]]; [reflexivity | congruence].
  - rewrite nearest_double_exact by lia. reflexivity.
Qed.

(** [parseInt] on a string that starts with a character below U+0080 that
    is neither white space, a sign nor a zero, and on a minus sign before
    a character that is not a zero: the decimal digits are read. *)
Lemma parseInt_plain (c : ascii) (rest : string) :
  is_white_space c = false -> (nat_of_ascii c < 128)%nat ->
  c ≠ "-"%char -> c ≠ "+"%char -> c ≠ "0"%char ->
  parseInt (String c rest) =
  match parse_digits 10 (String c rest) None with
  | Some mathInt => integer_result 1 mathInt
  | None => NaN
  end.
Proof.
  intros Hws Hc Hm Hp H0. unfold parseInt.
  rewrite trim_start_plain by assumption. clear Hws Hc.
  destruct c as [[] [] [] [] [] [] [] []]; try contradiction; reflexivity.
Qed.

Lemma parseInt_minus (c : ascii) (rest : string) :
  c ≠ "0"%char ->
  parseInt (String "-" (String c rest)) =
  match parse_digits 10 (String c rest) None with
  | Some mathInt => integer_result (-1) mathInt
  | None => NaN
  end.
Proof.
  intros H0. unfold parseInt.
  rewrite trim_start_plain by (reflexivity || (vm_compute; lia)).
  destruct c as [[] [] [] [] [] [] [] []]; try contradiction; reflexivity.
Qed.

Lemma pretty_N_char_plain (d : N) :
  (1 <= d <= 9)%N ->
  is_white_space (pretty_N_char d) = false /\
  (nat_of_ascii (pretty_N_char d) < 128)%nat /\
  pretty_N_char d ≠ "-"%char /\ pretty_N_char d ≠ "+"%char /\
  pretty_N_char d ≠ "0"%char.
Proof.
  intros Hd.
  assert (H : (d = 1 \/ d = 2 \/ d = 3 \/ d = 4 \/ d = 5 \/ d = 6 \/
               d = 7 \/ d = 8 \/ d = 9)%N) by lia.
  repeat (destruct H as [-> | H];
          [split; [reflexivity |]; split; [vm_compute; lia |];
           repeat split; discriminate |]).
  subst d. split; [reflexivity |]. split; [vm_compute; lia |].
  repeat split; discriminate.
Qed.


(** Beyond 2^53 the result is the nearest double. *)
Lemma parseInt_rounds :
  parseInt "9007199254740993" = Int 9007199254740992 /\
  parseInt "9007199254740995" = Int 9007199254740996.
Proof. split; vm_compute; reflexivity. Qed.

(** ** Theorems: the geometry converter *)

(** C7: every feature the converter returns comes from an element whose
    extracted coordinates are at least 4; its ring is these coordinates,
    closed (first point equal to last point), holds between 4 and 100
    points and only points inside the home bounding box.  An element whose
    extracted coordinates are fewer than 4, or hold a point outside the box,
    or exceed 100 points once closed, yields no feature.  (A payload that
    is [null] or has a [null] entry makes the converter raise: it returns
    no feature at all.) *)
Theorem converter_rings_valid (data : option OSMData) :
  (forall validBuildings f,
     convertOSMToGeoJSON data = Returns validBuildings ->
     f ∈ validBuildings ->
     exists d element geometry0 ring,
       data = Some d /\
       Some element ∈ default [] (elements d) /\
       geometry element = Some geometry0 /\
       (4 <= length (extractCoords element geometry0))%nat /\
       ring = closeRing (extractCoords element geometry0) /\
       coordinates f = [ring] /\
       ring_closed ring /\
       (4 <= length ring)%nat /\ (length ring <= 100)%nat /\
       Forall in_home_box ring) /\
  (forall d element geometry0,
     data = Some d ->
     Some element ∈ default [] (elements d) ->
     geometry element = Some geometry0 ->
     let coords := extractCoords element geometry0 in
     ((length coords < 4)%nat \/
      Exists (fun p => ~ in_home_box p) coords \/
      (100 < length (closeRing coords))%nat) ->
     convertElement element = None).
Proof.
  split.
  - intros fs f Hret Hf. apply (convertOSMToGeoJSON_elem _ _ f Hret) in Hf.
    destruct Hf as (d & els & element & Hd & Hels & Hin & Hconv).
    apply convertElement_Some in Hconv.
    destruct Hconv as (g & t & Hg & Ht & _ & Hlen & Hbox & Hbig & ->).
    exists d, element, g, (closeRing (extractCoords element g)).
    rewrite Hels. cbn [default]. repeat split; try assumption.
    + apply closeRing_closed. intros E. rewrite E in Hlen. simpl in Hlen. lia.
    + destruct (closeRing_cases (extractCoords element g))
        as [[_ ->] | [(_ & p & _ & ->) | [E _]]].
      * exact Hlen.
      * rewrite length_app. lia.
      * rewrite E in Hlen. simpl in Hlen. lia.
    + apply closeRing_Forall, Hbox.
  - intros d element g _ _ Hg coords Hbad.
    destruct (convertElement element) as [f |] eqn:E; [| reflexivity].
    exfalso. apply convertElement_Some in E.
    destruct E as (g' & t & Hg' & _ & _ & Hlen & Hbox & Hbig & _).
    rewrite Hg in Hg'. injection Hg' as <-. fold coords in Hlen, Hbox, Hbig.
    destruct Hbad as [H | [H | H]]; [lia | | lia].
    apply Exists_exists in H. destruct H as (p & Hp & Hout).
    rewrite Forall_forall in Hbox. apply Hout, Hbox, Hp.
Qed.

Lemma converter_rings_valid_witness :
  let data := {| elements := Some [Some (graben_way open_nodes);
                                   Some (graben_way (take 3 open_nodes))] |} in
  (exists d element geometry0 ring,
      Some data = Some d /\
      Some element ∈ default [] (elements d) /\
      geometry element = Some geometry0 /\
      (4 <= length (extractCoords element geometry0))%nat /\
      ring = closeRing (extractCoords element geometry0) /\
      coordinates (mkViennaBuilding (buildingProperties graben_tags)
                     [open_nodes ++ [(16.37, 48.20)%Q]]) = [ring] /\
      ring_closed ring /\
      (4 <= length ring)%nat /\ (length ring <= 100)%nat /\
      Forall in_home_box ring) /\
  convertElement (graben_way (take 3 open_nodes)) = None.
Proof.
  intros data. destruct (converter_rings_valid (Some data)) as [Hacc Hrej].
  split.
  - apply (Hacc [mkViennaBuilding (buildingProperties graben_tags)
                   [open_nodes ++ [(16.37, 48.20)%Q]]]).
    + vm_compute. reflexivity.
    + apply list_elem_of_here.
  - apply (Hrej data (graben_way (take 3 open_nodes))
             (way_nodes (take 3 open_nodes))).
    + reflexivity.
    + apply list_elem_of_further, list_elem_of_here.
    + reflexivity.
    + left. vm_compute. lia.
Defined.

(** C10: no feature the converter returns has a [BAUJAHR] property. *)
Theorem converter_no_BAUJAHR (data : option OSMData)
  (validBuildings : list ViennaBuilding) (f : ViennaBuilding) :
  convertOSMToGeoJSON data = Returns validBuildings ->
  f ∈ validBuildings -> BAUJAHR (properties f) = None.
Proof.
  intros Hret Hf. apply (convertOSMToGeoJSON_elem _ _ f Hret) in Hf.
  destruct Hf as (d & els & element & _ & _ & _ & Hconv).
  apply convertElement_Some in Hconv.
  destruct Hconv as (g & t & _ & _ & _ & _ & _ & _ & ->). reflexivity.
Qed.

Lemma converter_no_BAUJAHR_witness :
  BAUJAHR (properties (mkViennaBuilding (buildingProperties graben_tags)
                         [open_nodes ++ [(16.37, 48.20)%Q]])) = None.
Proof.
  apply (converter_no_BAUJAHR
           (Some {| elements := Some [Some (graben_way open_nodes)] |})
           [mkViennaBuilding (buildingProperties graben_tags)
              [open_nodes ++ [(16.37, 48.20)%Q]]]).
  - vm_compute. reflexivity.
  - apply list_elem_of_here.
Defined.

Lemma graben_properties :
  buildingProperties graben_tags =
  {| ADRESSE := Some "Graben 21"; BAUWEISE := Some "structure";
     STOCKWERKE := None; BAUJAHR := None; NAME := None |}.
Proof. vm_compute. reflexivity. Qed.

(** C5 (as the code has it): the payload with the one way tagged
    [building=yes], [addr:street=Graben], [addr:housenumber=21] on five
    nodes of the home region yields exactly one feature, with [ADRESSE]
    "Graben 21" and [BAUWEISE] "structure", the last fallback of
    [getBuildingType]; its ring is closed; the ring has 5 points when the
    fifth node equals the first, and 6 points (the five nodes and a copy of
    the first) when the converter has to close it. *)
Theorem graben_scenario (pts : list (number * number)) :
  length pts = 5%nat ->
  Forall in_home_box pts ->
  exists f ring,
    convertOSMToGeoJSON (Some {| elements := Some [Some (graben_way pts)] |})
      = Returns [f] /\
    ADRESSE (properties f) = Some "Graben 21" /\
    BAUWEISE (properties f) = Some "structure" /\
    getBuildingType ∅ = "structure" /\
    coordinates f = [ring] /\
    ring_closed ring /\
    (ring_closed pts -> ring = pts /\ length ring = 5%nat) /\
    (~ ring_closed pts ->
     ring = pts ++ take 1 pts /\ length ring = 6%nat).
Proof.
  intros Hlen Hbox.
  assert (Hne : pts ≠ []) by (intros ->; discriminate).
  assert (Hconv : convertElement (graben_way pts) =
                  Some {| properties := buildingProperties graben_tags;
                          coordinates := [closeRing pts] |}).
  { apply convertElement_Some. exists (way_nodes pts), graben_tags.
    cbn [extractCoords graben_way type String.eqb]. simpl String.eqb.
    rewrite nodeCoords_way_nodes.
    repeat split; try assumption.
    - left. vm_compute. reflexivity.
    - lia.
    - destruct (closeRing_cases pts)
        as [[_ ->] | [(_ & p & _ & ->) | [E _]]];
        [| rewrite length_app; simpl | congruence]; lia. }
  exists {| properties := buildingProperties graben_tags;
            coordinates := [closeRing pts] |}, (closeRing pts).
  split.
  { unfold convertOSMToGeoJSON. cbn [elements forEach_element].
    rewrite Hconv. reflexivity. }
  cbn [properties coordinates]. rewrite graben_properties.
  cbn [ADRESSE BAUWEISE].
  repeat split.
  - apply closeRing_closed, Hne.
  - destruct (closeRing_cases pts)
      as [[_ E] | [(Hn & _) | [E _]]]; [exact E | tauto | congruence].
  - destruct (closeRing_length pts) as [Hsame _]. rewrite Hsame by assumption.
    exact Hlen.
  - destruct (closeRing_cases pts)
      as [[Hc _] | [(_ & p & Hp & ->) | [E _]]]; [tauto | | congruence].
    destruct pts as [| q pts]; [discriminate |]. simpl in Hp.
    injection Hp as ->. reflexivity.
  - destruct (closeRing_length pts) as [_ Hmore].
    rewrite Hmore by assumption. rewrite Hlen. reflexivity.
Qed.

Lemma graben_scenario_witness :
  exists f ring,
    convertOSMToGeoJSON
      (Some {| elements := Some [Some (graben_way closed_nodes)] |})
      = Returns [f] /\
    ADRESSE (properties f) = Some "Graben 21" /\
    BAUWEISE (properties f) = Some "structure" /\
    getBuildingType ∅ = "structure" /\
    coordinates f = [ring] /\
    ring_closed ring /\
    (ring_closed closed_nodes -> ring = closed_nodes /\ length ring = 5%nat) /\
    (~ ring_closed closed_nodes ->
     ring = closed_nodes ++ take 1 closed_nodes /\ length ring = 6%nat).
Proof.
  apply (graben_scenario closed_nodes).
  - reflexivity.
  - repeat constructor; vm_compute; discriminate.
Defined.

(** C5 (as stated, refuted): on five nodes of the home region that the
    converter has to close, the ring of the feature has 6 points, not 5. *)
Lemma graben_ring_has_six_points :
  Forall in_home_box open_nodes /\ length open_nodes = 5%nat /\
  ~ ring_closed open_nodes /\
  ~ exists f ring,
      convertOSMToGeoJSON
        (Some {| elements := Some [Some (graben_way open_nodes)] |})
        = Returns [f] /\
      coordinates f = [ring] /\ length ring = 5%nat.
Proof.
  split; [repeat constructor; vm_compute; discriminate |].
  split; [reflexivity |]. split.
  - unfold ring_closed. simpl. intros [H _]. vm_compute in H. discriminate.
  - intros (f & ring & Hf & Hring & Hlen). vm_compute in Hf.
    injection Hf as <-. simpl in Hring. injection Hring as <-.
    simpl in Hlen. discriminate.
Qed.




(** * Lemmas: the viewport loader *)

Lemma filter_none {X : Type} (P : X -> Prop) `{!forall x, Decision (P x)}
  (l : list X) :
  (forall x, x ∈ l -> ~ P x) -> filter P l = [].
Proof.
  induction l as [| x l IH]; intros Hall; [reflexivity |].
  rewrite filter_cons_False by (apply Hall, list_elem_of_here).
  apply IH. intros y Hy. apply Hall, list_elem_of_further, Hy.
Qed.

Lemma NoDup_delete_elem {X : Type} (l : list X) (i : nat) (x y : X) :
  NoDup l -> l !! i = Some x ->
  (y ∈ delete i l <-> y ∈ l /\ y ≠ x).
Proof.
  intros Hnd Hi. rewrite delete_take_drop.
  pose proof (take_drop_middle l i x Hi) as Hl.
  remember (take i l) as a eqn:Ea. remember (drop (S i) l) as b eqn:Eb.
  clear Ea Eb Hi. subst l.
  apply NoDup_app in Hnd. destruct Hnd as (_ & Hdisj & Hnd).
  apply NoDup_cons in Hnd. destruct Hnd as [Hx _].
  rewrite !elem_of_app, elem_of_cons. split.
  - intros [Hy | Hy].
    + split; [tauto |]. intros ->. apply (Hdisj x Hy), list_elem_of_here.
    + split; [tauto |]. intros ->. contradiction.
  - intros [[Hy | [-> | Hy]] Hne]; tauto.
Qed.

Section LoaderFacts.
Context (numberToString : number -> string).
Context (typeErrorMessage : string -> string).

Local Abbreviation bbox_of bounds :=
  (boundsToOverpassBbox numberToString (addBoundsBuffer bounds 0.3)).
Local Abbreviation call := (loadBuildings_call numberToString).
Local Abbreviation resume :=
  (loadBuildings_resume numberToString typeErrorMessage).
Local Abbreviation key_of := (firstPointKey numberToString).



Lemma call_cached bounds st e :
  isWithinVienna bounds = true ->
  bbox_of bounds ∉ loadingRef st ->
  Map_get (boundsToKey (addBoundsBuffer bounds 0.3))
    (BoundsCache.cache (buildingCache st)) = Some e ->
  call bounds st =
  ({| buildings :=
        appendCached (BoundsCache.data e) (buildings st);
      loading := loading st;
      error := error st;
      loadingRef := loadingRef st;
      buildingCache :=
        (BoundsCache.get (buildingCache st)
           (addBoundsBuffer bounds 0.3)).2 |}, None).
Proof.
  intros Hv Hk He. unfold loadBuildings_call. rewrite Hv. cbn [negb].
  rewrite bool_decide_eq_false_2 by exact Hk.
  unfold BoundsCache.get. rewrite He. reflexivity.
Qed.

Lemma call_fetch bounds st :
  isWithinVienna bounds = true ->
  bbox_of bounds ∉ loadingRef st ->
  boundsToKey (addBoundsBuffer bounds 0.3) ∉
    BoundsCache.keys (buildingCache st) ->
  call bounds st =
  ({| buildings := buildings st;
      loading := true;
      error := None;
      loadingRef := {[ bbox_of bounds ]} ∪ loadingRef st;
      buildingCache := buildingCache st |},
   Some {| bufferedBounds := addBoundsBuffer bounds 0.3;
           boundsKey := bbox_of bounds |}).
Proof.
  intros Hv Hk Hc. unfold loadBuildings_call. rewrite Hv. cbn [negb].
  rewrite bool_decide_eq_false_2 by exact Hk.
  rewrite cache_get_miss by exact Hc. reflexivity.
Qed.

(** A call that reaches [fetch] has put its bbox string, which was not
    there, into the in-flight set. *)
Lemma call_Some bounds st st' p :
  call bounds st = (st', Some p) ->
  boundsKey p = bbox_of bounds /\
  bufferedBounds p = addBoundsBuffer bounds 0.3 /\
  (boundsKey p ∉ loadingRef st) /\
  loadingRef st' = {[ boundsKey p ]} ∪ loadingRef st /\
  buildings st' = buildings st.
Proof.
  unfold loadBuildings_call.
  destruct (isWithinVienna bounds); cbn [negb]; [| discriminate].
  destruct (bool_decide _) eqn:E; [discriminate |].
  apply bool_decide_eq_false in E.
  destruct (BoundsCache.get _ _) as [[cachedData |] cache'];
    [discriminate |].
  intros [= <- <-]. cbn. repeat split. exact E.
Qed.

(** A call that returns without fetching leaves the in-flight set as it
    was. *)
Lemma call_None bounds st st' :
  call bounds st = (st', None) -> loadingRef st' = loadingRef st.
Proof.
  unfold loadBuildings_call.
  destruct (isWithinVienna bounds); cbn [negb]; [| intros [= <-]; reflexivity].
  destruct (bool_decide _); [intros [= <-]; reflexivity |].
  destruct (BoundsCache.get _ _) as [[cachedData |] cache'];
    [| discriminate].
  intros [= <-]. reflexivity.
Qed.

Lemma resume_loadingRef p outcome now st :
  loadingRef (resume p outcome now st) = loadingRef st ∖ {[ boundsKey p ]}.
Proof.
  unfold loadBuildings_resume.
  destruct (try_newBuildings typeErrorMessage outcome); reflexivity.
Qed.

(** The [try] block gets to the new buildings when the body parsed and the
    converter returned. *)
Lemma try_newBuildings_inr outcome newBuildings :
  try_newBuildings typeErrorMessage outcome = inr newBuildings <->
  exists data,
    outcome = JsonData data /\ convertOSMToGeoJSON data = Returns newBuildings.
Proof.
  split.
  - destruct outcome as [err | status | err | data]; try discriminate.
    cbn [try_newBuildings].
    destruct (convertOSMToGeoJSON data) as [fs |] eqn:E; [| discriminate].
    intros [= <-]. exists data. split; [reflexivity | exact E].
  - intros (data & -> & E). cbn [try_newBuildings]. rewrite E. reflexivity.
Qed.

(** The state a call ends in when its [try] block threw: the [catch] and
    the [finally]. *)
Lemma resume_thrown p outcome now st err :
  thrownBy typeErrorMessage outcome = Some err ->
  resume p outcome now st =
  {| buildings := buildings st;
     loading := false;
     error := Some (errorMessage err);
     loadingRef := loadingRef st ∖ {[ boundsKey p ]};
     buildingCache := buildingCache st |}.
Proof.
  unfold thrownBy, loadBuildings_resume.
  destruct (try_newBuildings typeErrorMessage outcome) as [e | fs];
    [| discriminate].
  intros [= <-]. reflexivity.
Qed.

(** The state a call ends in when the converter returned. *)
Lemma resume_returned p data newBuildings now st :
  convertOSMToGeoJSON data = Returns newBuildings ->
  resume p (JsonData data) now st =
  {| buildings := mergeNew numberToString newBuildings (buildings st);
     loading := false;
     error := error st;
     loadingRef := loadingRef st ∖ {[ boundsKey p ]};
     buildingCache :=
       BoundsCache.set (buildingCache st) (bufferedBounds p)
         {| features := newBuildings |} now |}.
Proof.
  intros E. unfold loadBuildings_resume. cbn [try_newBuildings].
  rewrite E. reflexivity.
Qed.

Lemma resume_loading p outcome now st :
  loading (resume p outcome now st) = false.
Proof. reflexivity. Qed.

(** Every feature of the converter has a first ring point, so the
    [TypeError] case of [firstPointKey] does not arise on the features the
    hook accumulates or caches. *)
Lemma firstPointKey_converted (data : option OSMData)
  (validBuildings : list ViennaBuilding) (f : ViennaBuilding) :
  convertOSMToGeoJSON data = Returns validBuildings ->
  f ∈ validBuildings -> is_Some (key_of f).
Proof.
  intros Hret Hf. apply (convertOSMToGeoJSON_elem _ _ f Hret) in Hf.
  destruct Hf as (d & els & element & _ & _ & _ & Hconv).
  apply convertElement_Some in Hconv.
  destruct Hconv as (g & t & _ & _ & _ & Hlen & _ & _ & ->).
  unfold firstPointKey. cbn [coordinates].
  destruct (closeRing_cases (extractCoords element g))
    as [[_ ->] | [(_ & p & Hp & ->) | [E _]]].
  - destruct (extractCoords element g); [simpl in Hlen; lia | eexists; eauto].
  - destruct (extractCoords element g); [discriminate | eexists; eauto].
  - rewrite E in Hlen. simpl in Hlen. lia.
Qed.

(** *** The fetch path merges without repeating a first point *)

Lemma NoDup_fmap_filter {X Y : Type} (g : X -> Y) (P : X -> Prop)
  `{!forall x, Decision (P x)} (l : list X) :
  NoDup (g <$> l) -> NoDup (g <$> filter P l).
Proof.
  induction l as [| x l IH]; [intros _; constructor |].
  rewrite fmap_cons, NoDup_cons. intros [Hx Hnd].
  rewrite filter_cons. destruct (decide (P x)); [| apply IH, Hnd].
  rewrite fmap_cons. apply NoDup_cons. split; [| apply IH, Hnd].
  intros Hin. apply Hx. apply list_elem_of_fmap in Hin.
  destruct Hin as (y & -> & Hy). apply list_elem_of_filter in Hy.
  apply list_elem_of_fmap. exists y. tauto.
Qed.

Lemma mergeNew_NoDup newBuildings prev :
  NoDup (key_of <$> features prev) ->
  NoDup (key_of <$> newBuildings) ->
  NoDup (key_of <$> features (mergeNew numberToString newBuildings prev)).
Proof.
  intros Hprev Hnew. unfold mergeNew. cbn [features].
  rewrite fmap_app. apply NoDup_app. repeat split.
  - exact Hprev.
  - intros k Hk Hk'. apply list_elem_of_fmap in Hk'.
    destruct Hk' as (f & -> & Hf). apply list_elem_of_filter in Hf.
    tauto.
  - apply NoDup_fmap_filter, Hnew.
Qed.

(** Merging the same converted features a second time through the fetch
    path adds nothing. *)
Lemma mergeNew_twice newBuildings prev :
  mergeNew numberToString newBuildings
    (mergeNew numberToString newBuildings prev) =
  mergeNew numberToString newBuildings prev.
Proof.
  unfold mergeNew. cbn [features]. f_equal.
  rewrite <- (app_nil_r (features prev ++ _)) at 2. f_equal.
  apply filter_none. intros f Hf Hnot. apply Hnot.
  rewrite fmap_app, elem_of_app.
  destruct (decide (key_of f ∈ key_of <$> features prev)) as [? | Hn];
    [left; assumption |].
  right. apply list_elem_of_fmap. exists f. split; [reflexivity |].
  apply list_elem_of_filter. tauto.
Qed.
End LoaderFacts.

Section LoaderTheorems.
Context (numberToString : number -> string).
Context (typeErrorMessage : string -> string).

Local Abbreviation bbox_of bounds :=
  (boundsToOverpassBbox numberToString (addBoundsBuffer bounds 0.3)).
Local Abbreviation call := (loadBuildings_call numberToString).
Local Abbreviation resume :=
  (loadBuildings_resume numberToString typeErrorMessage).
Local Abbreviation handle := (react numberToString typeErrorMessage).
Local Abbreviation handle_all :=
  (reacts numberToString typeErrorMessage).



Lemma react_in_flight_ok (sys : System) (ev : Event) :
  in_flight_ok sys -> in_flight_ok (handle sys ev).
Proof.
  intros [Hnd Hset]. destruct ev as [bounds | i outcome now |];
    unfold react.
  - destruct (call bounds (hook sys)) as [st [p |]] eqn:E.
    + apply call_Some in E. destruct E as (_ & _ & Hnin & Href & _).
      split; cbn [hook outstanding]; rewrite fmap_app;
        change (boundsKey <$> [p]) with [boundsKey p].
      * apply NoDup_app. repeat split;
          [exact Hnd | | apply NoDup_singleton].
        intros k Hk Hk'. apply list_elem_of_singleton in Hk'. subst k.
        apply Hnin, Hset, Hk.
      * intros k. rewrite Href, elem_of_union, elem_of_singleton.
        rewrite elem_of_app, list_elem_of_singleton, Hset. tauto.
    + apply call_None in E. split; cbn [hook outstanding];
        [exact Hnd |].
      intros k. rewrite E. apply Hset.
  - destruct (outstanding sys !! i) as [p |] eqn:Ei; [| split; assumption].
    split; cbn [hook outstanding]; rewrite list_fmap_delete.
    + eapply sublist_NoDup; [exact Hnd | apply sublist_delete].
    + intros k. rewrite resume_loadingRef, elem_of_difference.
      rewrite elem_of_singleton, Hset.
      rewrite (NoDup_delete_elem _ i (boundsKey p)); [reflexivity | exact Hnd |].
      rewrite list_lookup_fmap, Ei. reflexivity.
  - split; [exact Hnd | exact Hset].
Qed.

Lemma reacts_in_flight_ok (evs : list Event) (sys : System) :
  in_flight_ok sys -> in_flight_ok (handle_all evs sys).
Proof.
  revert sys. induction evs as [| ev evs IH]; intros sys H; [exact H |].
  apply IH, react_in_flight_ok, H.
Qed.

Lemma initialSystem_in_flight_ok : in_flight_ok initialSystem.
Proof.
  split; [constructor |]. intros k. simpl.
  rewrite elem_of_nil. split; [| intros []]. apply not_elem_of_empty.
Qed.




(** C8: when the fetch of a call fails, the call ends with the error set
    to a message that says what failed, the accumulated buildings and the
    cache as they were, [loading] false and its bbox string out of the
    in-flight set.  The message is the one of the error [fetch] rejected
    with (a network error) or [response.json()] rejected with (a parse
    error), "Failed to load buildings" when what they rejected with is no
    [Error], and "Overpass API failed: " with the status when the status
    is not a success.  Every other end of a call that fetched (success, or
    a converter that raised) leaves [loading] false and the bbox string
    out of the in-flight set as well. *)
Theorem loadBuildings_failure (p : Pending) (now : Z) (st : HookState) :
  (forall message,
     failed_with p st (resume p (FetchRejected (ErrorObject message)) now st)
       message) /\
  failed_with p st (resume p (FetchRejected OtherValue) now st)
    "Failed to load buildings" /\
  (forall status,
     failed_with p st (resume p (ResponseNotOk status) now st)
       ("Overpass API failed: " ++ pretty status)) /\
  (forall message,
     failed_with p st (resume p (JsonRejected (ErrorObject message)) now st)
       message) /\
  failed_with p st (resume p (JsonRejected OtherValue) now st)
    "Failed to load buildings" /\
  (forall outcome,
     loading (resume p outcome now st) = false /\
     boundsKey p ∉ loadingRef (resume p outcome now st)).
Proof.
  assert (Hout : forall o, boundsKey p ∉ loadingRef (resume p o now st)).
  { intros o. rewrite resume_loadingRef.
    rewrite elem_of_difference, elem_of_singleton. tauto. }
  assert (Hfail : forall o err,
    thrownBy typeErrorMessage o = Some err ->
    failed_with p st (resume p o now st) (errorMessage err)).
  { intros o err Hthrown. unfold failed_with.
    split; [| split; [| split; [| split]]];
      [rewrite (resume_thrown _ _ _ _ _ _ _ Hthrown); reflexivity ..
      | apply Hout]. }
  split; [intros message;
          apply (Hfail (FetchRejected (ErrorObject message)) _ eq_refl) |].
  split; [apply (Hfail (FetchRejected OtherValue) _ eq_refl) |].
  split; [intros status; apply (Hfail (ResponseNotOk status) _ eq_refl) |].
  split; [intros message;
          apply (Hfail (JsonRejected (ErrorObject message)) _ eq_refl) |].
  split; [apply (Hfail (JsonRejected OtherValue) _ eq_refl) |].
  intros outcome. split; [reflexivity | apply Hout].
Qed.
End LoaderTheorems.

(** Two viewports that share the meridian 16.38 and overlap in latitude. *)
Lemma boundsOverlap_spec_witness :
  boundsOverlap sample_view sample_view = true /\
  boundsOverlap sample_view (mkMapBounds 48.22 48.205 16.39 16.38) = true /\
  boundsOverlap sample_view (mkMapBounds 48.22 48.205 16.40 16.39) = false.
Proof.
  assert (Hs : well_formed sample_view).
  { split; vm_compute; discriminate. }
  assert (Ht : well_formed (mkMapBounds 48.22 48.205 16.39 16.38)).
  { split; vm_compute; discriminate. }
  destruct (boundsOverlap_spec sample_view
              (mkMapBounds 48.22 48.205 16.39 16.38))
    as (_ & Hrefl & _ & _ & Htouch & _).
  destruct (boundsOverlap_spec sample_view
              (mkMapBounds 48.22 48.205 16.40 16.39))
    as (_ & _ & Hsep & _).
  split; [apply Hrefl, Hs |]. split.
  - apply Htouch; [exact Hs | exact Ht | reflexivity |].
    intros Hdis. apply (Hdis 48.21%Q).
    repeat split; vm_compute; discriminate.
  - apply Hsep. left. vm_compute. reflexivity.
Defined.


(** A gateway timeout and a network error while one building is
    accumulated and another fetch is outstanding. *)
Lemma loadBuildings_failure_witness :
  let f := mkViennaBuilding (buildingProperties graben_tags) [closed_nodes] in
  let p := {| bufferedBounds := addBoundsBuffer sample_view 0.3;
              boundsKey := "bbox" |} in
  let st := {| buildings := {| features := [f] |}; loading := true;
               error := None; loadingRef := {[ "bbox"; "other" ]};
               buildingCache := BoundsCache.new |} in
  let resume :=
    loadBuildings_resume sample_numberToString sample_typeErrorMessage in
  failed_with p st (resume p (ResponseNotOk 504) 0%Z st)
    "Overpass API failed: 504" /\
  failed_with p st
    (resume p (FetchRejected (ErrorObject "Failed to fetch")) 0%Z st)
    "Failed to fetch" /\
  features (buildings (resume p (ResponseNotOk 504) 0%Z st)) = [f].
Proof.
  intros f p st resume.
  destruct (loadBuildings_failure sample_numberToString
              sample_typeErrorMessage p 0%Z st)
    as (Hnet & _ & Hstatus & _).
  split; [exact (Hstatus 504%nat) |].
  split; [exact (Hnet "Failed to fetch") |].
  destruct (Hstatus 504%nat) as (_ & Hb & _). unfold resume. rewrite Hb.
  reflexivity.
Defined.

(** C1 (what the code does instead): the cache-hit path appends the cached
    features without looking at the first points.  Loading a viewport,
    letting its fetch succeed with one building, and loading the same
    viewport again (one fetch in all, the second call is served by the
    cache) leaves the building twice in the accumulated set. *)
Theorem cache_hit_duplicates (numberToString : number -> string)
  (typeErrorMessage : string -> string) :
  let data := Some {| elements := Some [Some (graben_way closed_nodes)] |} in
  let sys :=
    reacts numberToString typeErrorMessage
      [Load sample_view; Settle 0 (JsonData data) 0; Load sample_view]
      initialSystem in
  exists f,
    convertOSMToGeoJSON data = Returns [f] /\
    fetched sys =
      [boundsToOverpassBbox numberToString (addBoundsBuffer sample_view 0.3)] /\
    outstanding sys = [] /\
    features (buildings (hook sys)) = [f; f] /\
    ~ NoDup (firstPointKey numberToString <$> features (buildings (hook sys))).
Proof.
  intros data sys.
  set (f := mkViennaBuilding (buildingProperties graben_tags) [closed_nodes]).
  set (k := boundsToOverpassBbox numberToString
              (addBoundsBuffer sample_view 0.3)).
  set (buf := addBoundsBuffer sample_view 0.3).
  set (p := {| bufferedBounds := buf; boundsKey := k |}).
  assert (Hconv : convertOSMToGeoJSON data = Returns [f])
    by (vm_compute; reflexivity).
  set (st1 := {| buildings := {| features := [] |}; loading := true;
                 error := None; loadingRef := {[ k ]} ∪ ∅;
                 buildingCache := BoundsCache.new |}).
  assert (E1 : react numberToString typeErrorMessage initialSystem
                 (Load sample_view) =
               {| hook := st1; outstanding := [p]; fetched := [k] |}).
  { unfold react. cbn [hook initialSystem].
    rewrite call_fetch; [reflexivity | vm_compute; reflexivity | |].
    - apply not_elem_of_empty.
    - apply not_elem_of_nil. }
  set (st2 := loadBuildings_resume numberToString typeErrorMessage p
                (JsonData data) 0 st1).
  assert (E2 : react numberToString typeErrorMessage
                 {| hook := st1; outstanding := [p]; fetched := [k] |}
                 (Settle 0 (JsonData data) 0) =
               {| hook := st2; outstanding := []; fetched := [k] |})
    by reflexivity.
  assert (Hb2 : features (buildings st2) = [f]).
  { unfold st2. rewrite (resume_returned _ _ _ _ _ _ _ Hconv).
    unfold mergeNew. cbn [features buildings st1 fmap list_fmap app].
    rewrite filter_cons_True by apply not_elem_of_nil. reflexivity. }
  assert (E3 : exists st3,
             react numberToString typeErrorMessage
               {| hook := st2; outstanding := []; fetched := [k] |}
               (Load sample_view) =
             {| hook := st3; outstanding := []; fetched := [k] |} /\
             features (buildings st3) = [f; f]).
  { unfold react. cbn [hook].
    rewrite (call_cached numberToString sample_view st2
               (BoundsCache.mkCacheEntry {| features := [f] |} 0%Z buf)).
    - eexists. split; [reflexivity |]. cbn [buildings appendCached features].
      rewrite Hb2. reflexivity.
    - vm_compute. reflexivity.
    - unfold st2. rewrite resume_loadingRef. cbn [boundsKey p].
      rewrite elem_of_difference, elem_of_singleton. tauto.
    - unfold st2. rewrite (resume_returned _ _ _ _ _ _ _ Hconv).
      cbn [buildingCache bufferedBounds p]. apply cache_get_set. }
  destruct E3 as (st3 & E3 & Hb3).
  assert (Hsys : sys = {| hook := st3; outstanding := []; fetched := [k] |}).
  { unfold sys, reacts. cbn [fold_left]. rewrite E1, E2, E3. reflexivity. }
  exists f. rewrite Hsys. cbn [hook outstanding fetched]. rewrite Hb3.
  split; [exact Hconv |]. do 3 (split; [reflexivity |]).
  intros Hnd. apply NoDup_cons in Hnd. destruct Hnd as [Hn _].
  apply Hn, list_elem_of_here.
Qed.

(** * Further properties: bounds utilities *)

Lemma buffer_nonneg (lo hi p : Q) :
  (lo <= hi)%Q -> (0 <= p)%Q -> (0 <= (hi - lo) * p)%Q.
Proof. intros Hle Hp. apply Qmult_le_0_compat; lra. Qed.

(** X1: buffering a well-formed bounds by a non-negative fraction gives a
    well-formed bounds that contains the original: no edge moves inward,
    and every point of the original rectangle lies in the buffered one. *)
Theorem addBoundsBuffer_contains (b : MapBounds) (p : number) :
  well_formed b -> (0 <= p)%Q ->
  well_formed (addBoundsBuffer b p) /\
  (north b <= north (addBoundsBuffer b p))%Q /\
  (south (addBoundsBuffer b p) <= south b)%Q /\
  (east b <= east (addBoundsBuffer b p))%Q /\
  (west (addBoundsBuffer b p) <= west b)%Q /\
  (forall x, lng_in b x -> lng_in (addBoundsBuffer b p) x) /\
  (forall y, lat_in b y -> lat_in (addBoundsBuffer b p) y).
Proof.
  intros [Hlat Hlng] Hp.
  pose proof (buffer_nonneg _ _ _ Hlat Hp) as Hlatb.
  pose proof (buffer_nonneg _ _ _ Hlng Hp) as Hlngb.
  unfold well_formed, lng_in, lat_in, addBoundsBuffer.
  cbn [north south east west].
  repeat split; try lra; intros; lra.
Qed.

Lemma addBoundsBuffer_contains_witness :
  (north sample_view <= north (addBoundsBuffer sample_view 0.3))%Q /\
  (west (addBoundsBuffer sample_view 0.3) <= west sample_view)%Q.
Proof.
  destruct (addBoundsBuffer_contains sample_view 0.3)
    as (_ & Hn & _ & _ & Hw & _).
  - split; vm_compute; discriminate.
  - vm_compute. discriminate.
  - split; assumption.
Defined.

(** X2: a bounds of zero extent along an axis keeps its edges on that axis
    whatever the fraction, and a zero fraction changes no edge. *)
Theorem addBoundsBuffer_degenerate (b : MapBounds) (p : number) :
  ((north b == south b)%Q ->
   (north (addBoundsBuffer b p) == north b)%Q /\
   (south (addBoundsBuffer b p) == south b)%Q) /\
  ((east b == west b)%Q ->
   (east (addBoundsBuffer b p) == east b)%Q /\
   (west (addBoundsBuffer b p) == west b)%Q) /\
  ((p == 0)%Q ->
   (north (addBoundsBuffer b p) == north b)%Q /\
   (south (addBoundsBuffer b p) == south b)%Q /\
   (east (addBoundsBuffer b p) == east b)%Q /\
   (west (addBoundsBuffer b p) == west b)%Q).
Proof.
  unfold addBoundsBuffer. cbn [north south east west].
  split; [| split].
  - intros E. assert (H : ((north b - south b) * p == 0)%Q)
      by (rewrite E; ring).
    split; rewrite H; ring.
  - intros E. assert (H : ((east b - west b) * p == 0)%Q)
      by (rewrite E; ring).
    split; rewrite H; ring.
  - intros E. repeat split; rewrite E; ring.
Qed.

Lemma addBoundsBuffer_degenerate_witness :
  (north (addBoundsBuffer (mkMapBounds 48.2 48.2 16.4 16.3) 0.3) == 48.2)%Q /\
  (east (addBoundsBuffer sample_view 0) == east sample_view)%Q.
Proof.
  destruct (addBoundsBuffer_degenerate (mkMapBounds 48.2 48.2 16.4 16.3) 0.3)
    as (Hlat & _).
  destruct (addBoundsBuffer_degenerate sample_view 0) as (_ & _ & Hzero).
  split.
  - apply Hlat. reflexivity.
  - apply Hzero. reflexivity.
Defined.

(** X3: buffering never loses an overlap: what a well-formed bounds
    overlaps, its buffered bounds overlaps too; so a viewport that passes
    [isWithinVienna] is fetched for a region that still overlaps Vienna. *)
Theorem addBoundsBuffer_keeps_overlap (b c : MapBounds) (p : number) :
  well_formed b -> (0 <= p)%Q ->
  (boundsOverlap b c = true -> boundsOverlap (addBoundsBuffer b p) c = true) /\
  (isWithinVienna b = true -> isWithinVienna (addBoundsBuffer b p) = true).
Proof.
  intros Hwf Hp.
  assert (H : forall c', boundsOverlap b c' = true ->
                         boundsOverlap (addBoundsBuffer b p) c' = true).
  { intros c' Ho.
    destruct (addBoundsBuffer_contains b p Hwf Hp)
      as (_ & Hn & Hs & He & Hw & _).
    apply boundsOverlap_true in Ho. apply boundsOverlap_true.
    destruct Ho as (H1 & H2 & H3 & H4). repeat split; lra. }
  split; [apply H | apply H].
Qed.

Lemma addBoundsBuffer_keeps_overlap_witness :
  isWithinVienna (addBoundsBuffer sample_view 0.3) = true.
Proof.
  destruct (addBoundsBuffer_keeps_overlap sample_view viennaBounds 0.3)
    as [_ H].
  - split; vm_compute; discriminate.
  - vm_compute. discriminate.
  - apply H. vm_compute. reflexivity.
Defined.

(** X4: two bounds that have a point in common overlap; and two
    well-formed bounds that overlap have a point in common (a corner of one
    of them). *)
Theorem boundsOverlap_common_point (a b : MapBounds) :
  ((exists x y, lng_in a x /\ lng_in b x /\ lat_in a y /\ lat_in b y) ->
   boundsOverlap a b = true) /\
  (well_formed a -> well_formed b -> boundsOverlap a b = true ->
   exists x y, lng_in a x /\ lng_in b x /\ lat_in a y /\ lat_in b y).
Proof.
  unfold lng_in, lat_in. split.
  - intros (x & y & [X1 X2] & [X3 X4] & [Y1 Y2] & [Y3 Y4]).
    apply boundsOverlap_true. repeat split; lra.
  - intros [Ha1 Ha2] [Hb1 Hb2] Ho. apply boundsOverlap_true in Ho.
    destruct Ho as (H1 & H2 & H3 & H4).
    destruct (Qlt_le_dec (west a) (west b)) as [Lx | Lx];
      destruct (Qlt_le_dec (south a) (south b)) as [Ly | Ly].
    + exists (west b), (south b). repeat split; lra.
    + exists (west b), (south a). repeat split; lra.
    + exists (west a), (south b). repeat split; lra.
    + exists (west a), (south a). repeat split; lra.
Qed.

Lemma boundsOverlap_common_point_witness :
  boundsOverlap sample_view viennaBounds = true /\
  exists x y, lng_in sample_view x /\ lng_in viennaBounds x /\
              lat_in sample_view y /\ lat_in viennaBounds y.
Proof.
  destruct (boundsOverlap_common_point sample_view viennaBounds)
    as [Hto Hfrom].
  assert (Ho : boundsOverlap sample_view viennaBounds = true).
  { apply Hto. exists 16.37%Q, 48.20%Q.
    repeat split; vm_compute; discriminate. }
  split; [exact Ho |]. apply Hfrom; [| | exact Ho];
    split; vm_compute; discriminate.
Defined.

(** * Further properties: the bounds cache *)

Section CacheMore.
Context {A : Type}.
Implicit Types (c : BoundsCache.t A) (b q : MapBounds) (d : A) (now : Z).
Implicit Types (m : list (string * BoundsCache.CacheEntry A)).

Lemma Map_get_delete_eq {V : Type} (key : string) (l : list (string * V)) :
  Map_get key (Map_delete key l) = None.
Proof.
  induction l as [| [k v] l IH]; [reflexivity |]. simpl.
  destruct (decide (k = key)) as [-> | Hne]; [exact IH |]. simpl.
  rewrite decide_False by exact Hne. exact IH.
Qed.

Lemma Map_set_absent {V : Type} (key : string) (v : V)
  (l : list (string * V)) :
  key ∉ Map_keys l -> Map_set key v l = l ++ [(key, v)].
Proof.
  unfold Map_keys. induction l as [| [k w] l IH]; [reflexivity |].
  rewrite fmap_cons, not_elem_of_cons. cbn [fst]. intros [Hne Hnin].
  cbn [Map_set]. rewrite decide_False by congruence.
  rewrite IH by exact Hnin. reflexivity.
Qed.

Lemma Map_get_elem {V : Type} (key : string) (v : V)
  (l : list (string * V)) :
  Map_get key l = Some v -> (key, v) ∈ l.
Proof.
  induction l as [| [k w] l IH]; [discriminate |]. simpl.
  destruct (decide (k = key)) as [-> | Hne].
  - intros [= ->]. apply list_elem_of_here.
  - intros H. apply list_elem_of_further, IH, H.
Qed.

Lemma Map_delete_Permutation {V : Type} (key : string) (v : V)
  (l : list (string * V)) :
  NoDup (Map_keys l) -> Map_get key l = Some v ->
  l ≡ₚ (key, v) :: Map_delete key l.
Proof.
  unfold Map_keys. induction l as [| [k w] l IH]; [discriminate |].
  rewrite fmap_cons, NoDup_cons. cbn [fst]. intros [Hk Hnd]. simpl.
  destruct (decide (k = key)) as [-> | Hne].
  - intros [= ->]. rewrite Map_delete_absent by exact Hk. reflexivity.
  - intros H. rewrite (IH Hnd H) at 1. apply Permutation_swap.
Qed.

(** X5: what [set] stores under a bounds, [get] returns, for the same
    bounds and for every bounds with the same four-decimal signature,
    whatever the cache held before and also when it was full. *)
Theorem cache_set_then_get c b b' d now :
  boundsToKey b' = boundsToKey b ->
  (BoundsCache.get (BoundsCache.set c b d now) b').1 = Some d.
Proof.
  intros Hk. unfold BoundsCache.get. rewrite Hk, cache_get_set. reflexivity.
Qed.

(** X6: [get] changes only the order of a cache: every signature keeps its
    entry, and a cache reachable from [new BoundsCache()] keeps its
    size. *)
Theorem cache_get_keeps_content c b :
  BoundsCache.reachable c ->
  (forall key, Map_get key (BoundsCache.cache (BoundsCache.get c b).2) =
               Map_get key (BoundsCache.cache c)) /\
  BoundsCache.size (BoundsCache.get c b).2 = BoundsCache.size c /\
  BoundsCache.keys (BoundsCache.get c b).2 ≡ₚ BoundsCache.keys c.
Proof.
  intros Hr. apply cache_reachable_inv in Hr. destruct Hr as (_ & _ & Hnd).
  unfold BoundsCache.get, BoundsCache.size, BoundsCache.keys.
  destruct (Map_get (boundsToKey b) (BoundsCache.cache c)) as [e |] eqn:E;
    cbn [snd BoundsCache.cache]; [| repeat split; reflexivity].
  assert (Hperm : Map_set (boundsToKey b) e
                    (Map_delete (boundsToKey b) (BoundsCache.cache c))
                  ≡ₚ BoundsCache.cache c).
  { rewrite Map_set_absent.
    - rewrite (Map_delete_Permutation _ e (BoundsCache.cache c) Hnd E) at 2.
      symmetry. apply Permutation_cons_append.
    - rewrite Map_keys_delete, list_elem_of_filter. tauto. }
  split; [| split].
  - intros key. destruct (decide (key = boundsToKey b)) as [-> | Hne].
    + rewrite Map_get_set. symmetry. exact E.
    + rewrite Map_get_set_ne, Map_get_delete_ne by congruence. reflexivity.
  - unfold Map_size. rewrite Hperm. reflexivity.
  - unfold Map_keys. rewrite Hperm. reflexivity.
Qed.

(** X7: an entry just stored is found by [findOverlapping] for every query
    that overlaps its bounds; in particular for its own bounds when they
    are well formed. *)
Theorem cache_findOverlapping_after_set c b q d now :
  (boundsOverlap q b = true ->
   d ∈ BoundsCache.findOverlapping (BoundsCache.set c b d now) q) /\
  (well_formed b ->
   d ∈ BoundsCache.findOverlapping (BoundsCache.set c b d now) b).
Proof.
  assert (H : forall q', boundsOverlap q' b = true ->
    d ∈ BoundsCache.findOverlapping (BoundsCache.set c b d now) q').
  { intros q' Ho. unfold BoundsCache.findOverlapping.
    apply list_elem_of_fmap. exists (BoundsCache.mkCacheEntry d now b).
    split; [reflexivity |]. apply list_elem_of_filter. split; [exact Ho |].
    unfold Map_values. apply list_elem_of_fmap.
    exists (boundsToKey b, BoundsCache.mkCacheEntry d now b).
    split; [reflexivity |]. apply Map_get_elem, cache_get_set. }
  split; [apply H |]. intros [Hlat Hlng]. apply H.
  apply boundsOverlap_true. repeat split; assumption.
Qed.

(** X8: a [get] does not change what [findOverlapping] returns, up to the
    order of the results. *)
Theorem cache_findOverlapping_after_get c b q :
  BoundsCache.reachable c ->
  BoundsCache.findOverlapping (BoundsCache.get c b).2 q ≡ₚ
  BoundsCache.findOverlapping c q.
Proof.
  intros Hr. apply cache_reachable_inv in Hr. destruct Hr as (_ & _ & Hnd).
  unfold BoundsCache.get, BoundsCache.findOverlapping, BoundsCache.keys in *.
  destruct (Map_get (boundsToKey b) (BoundsCache.cache c)) as [e |] eqn:E;
    cbn [snd BoundsCache.cache]; [| reflexivity].
  rewrite Map_set_absent
    by (rewrite Map_keys_delete, list_elem_of_filter; tauto).
  assert (Hperm : Map_delete (boundsToKey b) (BoundsCache.cache c) ++
                    [(boundsToKey b, e)] ≡ₚ BoundsCache.cache c).
  { rewrite (Map_delete_Permutation _ e (BoundsCache.cache c) Hnd E) at 2.
    symmetry. apply Permutation_cons_append. }
  unfold Map_values. rewrite Hperm. reflexivity.
Qed.

(** X9: [set] touches no entry other than the one it writes and, when the
    cache is at capacity, the first one: below capacity every other
    signature keeps its entry; at capacity every signature other than the
    first keeps its entry, and the first is gone unless it is the one
    written. *)
Theorem cache_set_keeps_others c b d now :
  ((BoundsCache.size c < BoundsCache.maxSize c)%nat ->
   forall key, key ≠ boundsToKey b ->
     Map_get key (BoundsCache.cache (BoundsCache.set c b d now)) =
     Map_get key (BoundsCache.cache c)) /\
  (forall first rest,
     BoundsCache.keys c = first :: rest ->
     (BoundsCache.maxSize c <= BoundsCache.size c)%nat ->
     (forall key, key ≠ boundsToKey b -> key ≠ first ->
        Map_get key (BoundsCache.cache (BoundsCache.set c b d now)) =
        Map_get key (BoundsCache.cache c)) /\
     (first ≠ boundsToKey b ->
      Map_get first (BoundsCache.cache (BoundsCache.set c b d now)) = None)).
Proof.
  unfold BoundsCache.set, BoundsCache.evictOldest, BoundsCache.size,
    BoundsCache.keys. cbn [BoundsCache.cache]. split.
  - intros Hlt key Hne. apply Nat.leb_gt in Hlt. rewrite Hlt.
    apply Map_get_set_ne. exact Hne.
  - intros first rest Hk Hge. apply Nat.leb_le in Hge. rewrite Hge, Hk.
    split.
    + intros key Hne Hnf. rewrite Map_get_set_ne by exact Hne.
      apply Map_get_delete_ne. exact Hnf.
    + intros Hnf. rewrite Map_get_set_ne by exact Hnf.
      apply Map_get_delete_eq.
Qed.

(** X10: writing a signature that is present, and not first, into a cache
    at capacity adds no entry and still removes the first one: the cache
    shrinks by one. *)
Theorem cache_reinsert_at_capacity c b d now (first : string)
  (rest : list string) :
  NoDup (BoundsCache.keys c) ->
  BoundsCache.keys c = first :: rest ->
  (BoundsCache.maxSize c <= BoundsCache.size c)%nat ->
  boundsToKey b ∈ rest ->
  BoundsCache.keys (BoundsCache.set c b d now) = rest /\
  S (BoundsCache.size (BoundsCache.set c b d now)) = BoundsCache.size c.
Proof.
  intros Hnd Hk Hge Hin.
  assert (Hkeys : BoundsCache.keys (BoundsCache.set c b d now) = rest).
  { unfold BoundsCache.keys at 1, BoundsCache.set. cbn [BoundsCache.cache].
    rewrite Map_keys_set, cache_evicted_keys by exact Hnd.
    apply Nat.leb_le in Hge. rewrite Hge, Hk. cbn [tail].
    rewrite decide_True by exact Hin. reflexivity. }
  split; [exact Hkeys |].
  rewrite <- !cache_size_keys, Hkeys, Hk. reflexivity.
Qed.
Lemma cache_reachable_insert_all (entries : list (MapBounds * A * Z)) c :
  BoundsCache.reachable c ->
  BoundsCache.reachable (BoundsCache.insert_all entries c).
Proof.
  revert c. induction entries as [| e entries IH]; intros c Hr; [exact Hr |].
  unfold BoundsCache.insert_all in *. cbn [fold_left]. apply IH.
  unfold BoundsCache.insert. apply BoundsCache.reachable_set, Hr.
Qed.
End CacheMore.

Lemma cache_set_then_get_witness :
  (BoundsCache.get
     (BoundsCache.set BoundsCache.new sample_view 7%nat 0)
     (mkMapBounds 48.21001 48.20 16.38 16.37)).1 = Some 7%nat.
Proof. apply cache_set_then_get. vm_compute. reflexivity. Defined.

Lemma cache_get_keeps_content_witness :
  let c := BoundsCache.insert_all (sample_entry <$> seq 1 3) BoundsCache.new in
  BoundsCache.size (BoundsCache.get c (sample_entry 1).1.1).2 = 3%nat.
Proof.
  intros c.
  destruct (cache_get_keeps_content c (sample_entry 1).1.1) as (_ & Hs & _).
  - apply cache_reachable_insert_all, BoundsCache.reachable_new.
  - rewrite Hs. vm_compute. reflexivity.
Defined.

Lemma cache_findOverlapping_after_set_witness :
  7%nat ∈ BoundsCache.findOverlapping
            (BoundsCache.set BoundsCache.new sample_view 7%nat 0) sample_view.
Proof.
  destruct (cache_findOverlapping_after_set BoundsCache.new sample_view
              sample_view 7%nat 0) as [_ H].
  apply H. split; vm_compute; discriminate.
Defined.

Lemma cache_findOverlapping_after_get_witness :
  let c := BoundsCache.insert_all (sample_entry <$> seq 1 3) BoundsCache.new in
  BoundsCache.findOverlapping (BoundsCache.get c (sample_entry 1).1.1).2
    (sample_entry 2).1.1 ≡ₚ
  BoundsCache.findOverlapping c (sample_entry 2).1.1.
Proof.
  intros c. apply cache_findOverlapping_after_get.
  apply cache_reachable_insert_all, BoundsCache.reachable_new.
Defined.

Lemma cache_set_keeps_others_witness :
  let c := BoundsCache.insert_all (sample_entry <$> seq 1 50) BoundsCache.new in
  let c' := BoundsCache.insert c (sample_entry 51) in
  Map_get (BoundsCache.entry_key (sample_entry 1)) (BoundsCache.cache c')
    = None /\
  Map_get (BoundsCache.entry_key (sample_entry 2)) (BoundsCache.cache c')
    = Map_get (BoundsCache.entry_key (sample_entry 2)) (BoundsCache.cache c).
Proof.
  intros c c'.
  destruct (cache_set_keeps_others c (sample_entry 51).1.1 51%nat 51)
    as [_ H].
  destruct (H (BoundsCache.entry_key (sample_entry 1))
              (BoundsCache.entry_key <$> (sample_entry <$> seq 2 49)))
    as [Hkeep Hgone].
  - vm_compute. reflexivity.
  - vm_compute. repeat constructor.
  - split.
    + apply Hgone. vm_compute. discriminate.
    + apply Hkeep; vm_compute; discriminate.
Defined.

Lemma cache_reinsert_at_capacity_witness :
  let c := BoundsCache.insert_all (sample_entry <$> seq 1 50) BoundsCache.new in
  BoundsCache.size (BoundsCache.set c (sample_entry 2).1.1 0%nat 0) = 49%nat.
Proof.
  intros c.
  destruct (cache_reinsert_at_capacity c (sample_entry 2).1.1 0%nat 0
              (BoundsCache.entry_key (sample_entry 1))
              (BoundsCache.entry_key <$> (sample_entry <$> seq 2 49)))
    as [_ Hs].
  - apply (bool_decide_unpack _). vm_compute. exact I.
  - vm_compute. reflexivity.
  - vm_compute. repeat constructor.
  - apply (bool_decide_unpack _). vm_compute. exact I.
  - assert (Hc : BoundsCache.size c = 50%nat) by (vm_compute; reflexivity).
    apply eq_add_S. exact (eq_trans Hs Hc).
Defined.

(** * Further properties: the geometry converter *)

Lemma omap_length_le {X Y : Type} (g : X -> option Y) (l : list X) :
  (length (omap g l) <= length l)%nat.
Proof.
  induction l as [| x l IH]; [reflexivity |].
  change (omap g (x :: l))
    with (match g x with Some y => y :: omap g l | None => omap g l end).
  destruct (g x); simpl; lia.
Qed.

(** X12: a relation contributes the nodes of its first member that is an
    outer way with a geometry; members before it that are not such, and all
    members after it, play no part. *)
Theorem relation_first_outer (element : OSMElement)
  (before after : list OSMMember) (outer : OSMMember)
  (g geometry0 : list (option GeomNode)) :
  type element = "relation" ->
  members element = Some (before ++ outer :: after) ->
  Forall (fun m => isOuterWay m = false) before ->
  member_type outer = "way" -> role outer = "outer" ->
  member_geometry outer = Some g ->
  extractCoords element geometry0 = nodeCoords g.
Proof.
  intros Ht Hm Hbefore Hway Hrole Hg. unfold extractCoords.
  rewrite Ht, Hm. cbn.
  assert (Houter : isOuterWay outer = true).
  { unfold isOuterWay. rewrite Hway, Hrole, Hg. reflexivity. }
  rewrite filter_app, filter_cons_True by exact Houter.
  rewrite (filter_none _ before).
  - cbn. rewrite Hg. reflexivity.
  - intros m Hin. rewrite Forall_forall in Hbefore.
    rewrite (Hbefore m Hin). discriminate.
Qed.

Lemma relation_first_outer_witness :
  extractCoords
    {| type := "relation"; tags := Some graben_tags; geometry := Some [];
       members := Some ([mkOSMMember "way" "inner" (Some [])] ++
                        mkOSMMember "way" "outer"
                          (Some (way_nodes closed_nodes))
                        :: [mkOSMMember "way" "outer"
                              (Some (way_nodes open_nodes))]) |} [] =
  nodeCoords (way_nodes closed_nodes).
Proof.
  apply (relation_first_outer _ [mkOSMMember "way" "inner" (Some [])]
           [mkOSMMember "way" "outer" (Some (way_nodes open_nodes))]
           (mkOSMMember "way" "outer" (Some (way_nodes closed_nodes))));
    try reflexivity.
  repeat constructor.
Defined.

(** X13: an element that is neither a way nor a relation yields no feature,
    whatever its tags and geometry; nor does a relation without members or
    without a member that is an outer way with a geometry. *)
Theorem converter_skips_other_types (element : OSMElement) :
  (type element ≠ "way" -> type element ≠ "relation" ->
   convertElement element = None) /\
  (type element = "relation" -> members element = None ->
   convertElement element = None) /\
  (forall ms, type element = "relation" -> members element = Some ms ->
     Forall (fun m => isOuterWay m = false) ms ->
     convertElement element = None).
Proof.
  assert (H : (forall g, extractCoords element g = []) ->
              convertElement element = None).
  { intros Hnil. unfold convertElement.
    destruct (geometry element) as [g |]; [| reflexivity].
    destruct (tags element) as [t |]; [| reflexivity].
    destruct (negb (hasStructureTag t) && _); [reflexivity |].
    rewrite Hnil. reflexivity. }
  split; [| split].
  - intros Hw Hr. apply H. intros g. unfold extractCoords.
    apply String.eqb_neq in Hw, Hr. rewrite Hw, Hr. reflexivity.
  - intros Hr Hm. apply H. intros g. unfold extractCoords.
    rewrite Hr, Hm. reflexivity.
  - intros ms Hr Hm Hall. apply H. intros g. unfold extractCoords.
    rewrite Hr, Hm. cbn. rewrite (filter_none _ ms); [reflexivity |].
    intros m Hin. rewrite Forall_forall in Hall. rewrite (Hall m Hin).
    discriminate.
Qed.

Lemma converter_skips_other_types_witness :
  convertElement {| type := "node"; tags := Some graben_tags;
                    geometry := Some (way_nodes closed_nodes);
                    members := None |} = None.
Proof.
  destruct (converter_skips_other_types
              {| type := "node"; tags := Some graben_tags;
                 geometry := Some (way_nodes closed_nodes);
                 members := None |}) as [H _].
  apply H; discriminate.
Defined.

(** X14: closing is idempotent, and a ring that is closed is left as it
    is. *)
Theorem closeRing_idempotent (coords : list (number * number)) :
  closeRing (closeRing coords) = closeRing coords /\
  (ring_closed coords -> closeRing coords = coords).
Proof.
  assert (H : forall r, ring_closed r -> closeRing r = r).
  { intros r Hc. destruct (closeRing_cases r)
      as [[_ E] | [(Hn & _) | [-> E]]]; [exact E | tauto | exact E]. }
  split; [| apply H].
  destruct coords as [| p coords]; [reflexivity |].
  apply H, closeRing_closed. discriminate.
Qed.

Lemma closeRing_idempotent_witness : closeRing closed_nodes = closed_nodes.
Proof.
  destruct (closeRing_idempotent closed_nodes) as [_ H]. apply H.
  split; reflexivity.
Defined.

(** X15: the nodes of a geometry are extracted in order; a geometry whose
    nodes all carry numbers gives its points back; [null] entries and
    entries whose [lon] or [lat] is not a number are skipped, so the result
    is never longer than the geometry. *)
Theorem nodeCoords_spec (g1 g2 : list (option GeomNode))
  (pts : list (number * number)) :
  nodeCoords (way_nodes pts) = pts /\
  nodeCoords (g1 ++ g2) = nodeCoords g1 ++ nodeCoords g2 /\
  nodeCoords (g1 ++ None :: g2) = nodeCoords (g1 ++ g2) /\
  (forall node, lon node = None \/ lat node = None ->
     nodeCoords (g1 ++ Some node :: g2) = nodeCoords (g1 ++ g2)) /\
  (length (nodeCoords g1) <= length g1)%nat.
Proof.
  split; [apply nodeCoords_way_nodes |]. unfold nodeCoords.
  split; [apply omap_app |]. split; [| split].
  - rewrite !omap_app. reflexivity.
  - intros node Hnode. rewrite !omap_app. cbn.
    destruct Hnode as [-> | ->]; [reflexivity |].
    destruct (lon node); reflexivity.
  - apply omap_length_le.
Qed.

Lemma nodeCoords_spec_witness :
  nodeCoords ([] ++ Some (mkGeomNode (Some 16.37%Q) None)
                :: way_nodes closed_nodes) =
  nodeCoords ([] ++ way_nodes closed_nodes).
Proof.
  destruct (nodeCoords_spec [] (way_nodes closed_nodes) []) as (_ & _ & _ & H & _).
  apply H. right. reflexivity.
Defined.

Lemma truthy_str (v : option string) : truthy v = true -> str v ≠ "".
Proof.
  destruct v as [s |]; [| discriminate]. simpl.
  intros H. apply negb_true_iff, String.eqb_neq in H. exact H.
Qed.

Lemma append_nonempty_l (a b : string) : a ≠ "" -> (a ++ b)%string ≠ "".
Proof. destruct a; [congruence | discriminate]. Qed.

Lemma append_nonempty_r (a b : string) : b ≠ "" -> (a ++ b)%string ≠ "".
Proof. destruct a; [intros H; exact H | discriminate]. Qed.

Ltac label_branch :=
  first
    [ apply truthy_str; assumption
    | apply append_nonempty_l, truthy_str; assumption
    | apply append_nonempty_r; discriminate
    | discriminate ].

Lemma getBuildingType_nonempty (tags : gmap string string) :
  getBuildingType tags ≠ "".
Proof.
  unfold getBuildingType.
  destruct (truthy (tags !! "building") && _) eqn:E.
  { apply andb_true_iff in E. destruct E as [E _]. label_branch. }
  repeat (match goal with
          | |- (if truthy ?v then _ else _) ≠ _ =>
              let H := fresh "T" in destruct (truthy v) eqn:H; [label_branch |]
          end).
  discriminate.
Qed.

Lemma getBuildingTypeLabel_nonempty (tags : gmap string string) :
  getBuildingTypeLabel tags ≠ "".
Proof.
  unfold getBuildingTypeLabel.
  destruct (truthy (tags !! "building") && _) eqn:E.
  { apply andb_true_iff in E. destruct E as [E _]. label_branch. }
  repeat (match goal with
          | |- (if truthy ?v then _ else _) ≠ _ =>
              let H := fresh "T" in destruct (truthy v) eqn:H; [label_branch |]
          end).
  discriminate.
Qed.

(** X16: the two classification helpers never return the empty string, and
    every feature of the converter carries a non-empty [ADRESSE] and a
    non-empty [BAUWEISE]; its [NAME], when present, is not empty. *)
Theorem labels_nonempty (data : option OSMData)
  (validBuildings : list ViennaBuilding) (f : ViennaBuilding) :
  convertOSMToGeoJSON data = Returns validBuildings ->
  f ∈ validBuildings ->
  (forall tags, getBuildingType tags ≠ "" /\ getBuildingTypeLabel tags ≠ "") /\
  (exists a, ADRESSE (properties f) = Some a /\ a ≠ "") /\
  (exists w, BAUWEISE (properties f) = Some w /\ w ≠ "") /\
  NAME (properties f) ≠ Some "".
Proof.
  intros Hret Hf. apply (convertOSMToGeoJSON_elem _ _ f Hret) in Hf.
  destruct Hf as (d & els & element & _ & _ & _ & Hconv).
  apply convertElement_Some in Hconv.
  destruct Hconv as (g & t & _ & _ & _ & _ & _ & _ & ->).
  cbn [properties buildingProperties ADRESSE BAUWEISE NAME].
  split; [| split; [| split]].
  - intros tags. split;
      [apply getBuildingType_nonempty | apply getBuildingTypeLabel_nonempty].
  - eexists. split; [reflexivity |].
    destruct (truthy (t !! "addr:street") && _) eqn:E.
    + apply andb_true_iff in E. destruct E as [E _]. label_branch.
    + destruct (truthy (t !! "name")) eqn:En; [label_branch |].
      apply getBuildingTypeLabel_nonempty.
  - eexists. split; [reflexivity | apply getBuildingType_nonempty].
  - destruct (truthy (t !! "name")) eqn:En; [| discriminate].
    intros E. rewrite E in En. discriminate.
Qed.

Lemma labels_nonempty_witness :
  exists a, ADRESSE (properties
              (mkViennaBuilding (buildingProperties graben_tags)
                 [closed_nodes])) = Some a /\ a ≠ "".
Proof.
  destruct (labels_nonempty
              (Some {| elements := Some [Some (graben_way closed_nodes)] |})
              [mkViennaBuilding (buildingProperties graben_tags)
                 [closed_nodes]]
              (mkViennaBuilding (buildingProperties graben_tags)
                 [closed_nodes])) as (_ & H & _).
  - vm_compute. reflexivity.
  - apply list_elem_of_here.
  - exact H.
Defined.

(** X17: a feature made from an element without any structure tag comes
    from a way with more than 3 geometry entries; its [BAUWEISE] is
    "structure", and its [ADRESSE] is "Vienna Structure" unless the tags
    give a street with house number or a name. *)
Theorem untagged_way_feature (element : OSMElement)
  (t : gmap string string) (f : ViennaBuilding) :
  tags element = Some t ->
  convertElement element = Some f ->
  hasStructureTag t = false ->
  type element = "way" /\
  (exists g, geometry element = Some g /\ (3 < length g)%nat) /\
  BAUWEISE (properties f) = Some "structure" /\
  (truthy (t !! "addr:street") && truthy (t !! "addr:housenumber") = false ->
   truthy (t !! "name") = false ->
   ADRESSE (properties f) = Some "Vienna Structure").
Proof.
  intros Ht Hconv Hno. apply convertElement_Some in Hconv.
  destruct Hconv as (g & t' & Hg & Ht' & Hpass & _ & _ & _ & ->).
  rewrite Ht in Ht'. injection Ht' as <-.
  destruct Hpass as [Hyes | [Hway Hlen]]; [congruence |].
  unfold hasStructureTag in Hno.
  repeat (apply orb_false_iff in Hno; destruct Hno as [Hno ?]).
  split; [exact Hway |]. split; [exists g; split; assumption |].
  cbn [properties buildingProperties ADRESSE BAUWEISE].
  assert (Htype : getBuildingType t = "structure").
  { unfold getBuildingType.
    repeat match goal with
           | H : truthy _ = false |- _ => rewrite H
           end. reflexivity. }
  split; [rewrite Htype; reflexivity |].
  intros Ha Hn. rewrite Ha, Hn. f_equal. unfold getBuildingTypeLabel.
  repeat match goal with
         | H : truthy _ = false |- _ => rewrite H
         end. reflexivity.
Qed.

Lemma untagged_way_feature_witness :
  BAUWEISE (properties
    (mkViennaBuilding (buildingProperties ∅) [closed_nodes]))
  = Some "structure".
Proof.
  pose proof (untagged_way_feature
                {| type := "way"; tags := Some ∅;
                   geometry := Some (way_nodes closed_nodes);
                   members := None |} ∅
                (mkViennaBuilding (buildingProperties ∅) [closed_nodes])
                eq_refl eq_refl eq_refl) as Hfeature.
  destruct Hfeature as (_ & _ & Hb & _). exact Hb.
Defined.

(** ** [parseInt] on a numeral followed by other text *)

Lemma string_app_assoc (a b c : string) :
  ((a ++ b) ++ c)%string = (a ++ (b ++ c))%string.
Proof.
  induction a as [| x a IH]; [reflexivity |].
  change (String x ((a ++ b) ++ c) = String x (a ++ (b ++ c)))%string.
  rewrite IH. reflexivity.
Qed.

Lemma pretty_N_go_app (x : N) (s : string) :
  pretty_N_go x s = (pretty_N_go x "" ++ s)%string.
Proof.
  revert s. induction (N.lt_wf_0 x) as [x _ IH]. intros s.
  destruct (decide (x = 0)%N) as [-> | Hx]; [reflexivity |].
  assert (Hpos : (0 < x)%N) by (destruct x; [congruence | reflexivity]).
  rewrite !(pretty_N_go_step x) by exact Hpos.
  assert (Hlt : (x `div` 10 < x)%N) by (apply N.div_lt; [exact Hpos | reflexivity]).
  rewrite (IH _ Hlt (String _ s)), (IH _ Hlt (String _ "")).
  rewrite string_app_assoc. reflexivity.
Qed.

Lemma parse_digits_stops (rest : string) (acc : option Z) :
  stops_decimal rest -> parse_digits 10 rest acc = acc.
Proof.
  destruct rest as [| c rest]; [reflexivity |]. simpl. intros Hstop.
  destruct (digit_value c) as [d |]; [| reflexivity].
  specialize (Hstop d eq_refl).
  destruct (d <? 10)%Z eqn:E; [| reflexivity].
  apply Z.ltb_lt in E. lia.
Qed.

(** X18: a floor-count tag that starts with a positive decimal numeral up
    to 2^53 and goes on with text that does not continue the numeral
    ("3.5", "3 floors", "2;3") is stored as that numeral's integer; with a
    minus sign in front, [parseInt] gives the negated integer, and a
    leading space or no-break space is skipped. *)
Theorem floor_count_numeral_prefix (tags : gmap string string) (n : N)
  (rest : string) :
  (0 < n)%N -> (Z.of_N n <= 2 ^ 53)%Z -> stops_decimal rest ->
  parseInt (pretty n ++ rest) = Int (Z.of_N n) /\
  parseInt ("-" ++ pretty n ++ rest) = Int (- Z.of_N n) /\
  parseInt (" " ++ pretty n ++ rest) = Int (Z.of_N n) /\
  parseInt (no_break_space ++ pretty n ++ rest) = Int (Z.of_N n) /\
  (tags !! "building:levels" = Some (pretty n ++ rest)%string ->
   STOCKWERKE (buildingProperties tags) = Some (Int (Z.of_N n))).
Proof.
  intros Hn Hle Hstop.
  assert (Hp : (pretty n ++ rest)%string = pretty_N_go n rest).
  { unfold pretty, pretty_N. rewrite decide_False by lia.
    symmetry. apply pretty_N_go_app. }
  destruct (pretty_N_go_leading n rest Hn) as (d & tl & Hd & Hlead).
  destruct (pretty_N_char_plain d Hd) as (Hws & Hc & Hm & Hplus & H0).
  assert (Hdigits : parse_digits 10 (pretty_N_go n rest) None =
                    Some (Z.of_N n)).
  { rewrite parse_digits_pretty_go by (exact Hn || reflexivity).
    apply parse_digits_stops, Hstop. }
  assert (H1 : parseInt (pretty n ++ rest) = Int (Z.of_N n)).
  { rewrite Hp. rewrite Hlead in *.
    rewrite parseInt_plain by assumption. rewrite Hdigits.
    rewrite integer_result_exact by lia. f_equal; lia. }
  split; [exact H1 |]. split; [| split; [| split]].
  - rewrite Hp. rewrite Hlead in *.
    change (parseInt (String "-" (String (pretty_N_char d) tl)) =
            Int (- Z.of_N n)).
    rewrite parseInt_minus by assumption. rewrite Hdigits.
    rewrite integer_result_exact by lia. f_equal; lia.
  - rewrite <- H1. reflexivity.
  - rewrite <- H1. reflexivity.
  - intros Ht. cbn [buildingProperties STOCKWERKE]. unfold js_or.
    rewrite Ht.
    assert (Htruthy : truthy (Some (pretty n ++ rest)%string) = true).
    { rewrite Hp, Hlead. reflexivity. }
    rewrite Htruthy, Htruthy. cbn [str default from_option id].
    rewrite H1. reflexivity.
Qed.

Lemma floor_count_numeral_prefix_witness :
  parseInt "3.5" = Int 3 /\ parseInt "-12 floors" = Int (-12) /\
  parseInt (no_break_space ++ "7 Etagen") = Int 7.
Proof.
  destruct (floor_count_numeral_prefix ∅ 3 ".5") as (H3 & _).
  { reflexivity. }
  { vm_compute. discriminate. }
  { intros d Hd. discriminate. }
  destruct (floor_count_numeral_prefix ∅ 12 " floors") as (_ & H12 & _).
  { reflexivity. }
  { vm_compute. discriminate. }
  { intros d Hd. discriminate. }
  destruct (floor_count_numeral_prefix ∅ 7 " Etagen") as (_ & _ & _ & H7 & _).
  { reflexivity. }
  { vm_compute. discriminate. }
  { intros d Hd. discriminate. }
  split; [exact H3 |]. split; [exact H12 | exact H7].
Defined.

(** * Further properties: the viewport loader *)

Lemma converted_valid (data : option OSMData)
  (validBuildings : list ViennaBuilding) (f : ViennaBuilding) :
  convertOSMToGeoJSON data = Returns validBuildings ->
  f ∈ validBuildings -> valid_feature f.
Proof.
  intros Hret Hf. apply (convertOSMToGeoJSON_elem _ _ f Hret) in Hf.
  destruct Hf as (d & els & element & _ & _ & _ & Hconv).
  apply convertElement_Some in Hconv.
  destruct Hconv as (g & t & _ & _ & _ & Hlen & Hbox & Hbig & ->).
  exists (closeRing (extractCoords element g)). cbn [coordinates].
  split; [reflexivity |]. split.
  { apply closeRing_closed. intros E. rewrite E in Hlen. simpl in Hlen. lia. }
  split; [| split; [exact Hbig | apply closeRing_Forall, Hbox]].
  destruct (closeRing_cases (extractCoords element g))
    as [[_ ->] | [(_ & p & _ & ->) | [E _]]].
  - exact Hlen.
  - rewrite length_app. lia.
  - rewrite E in Hlen. simpl in Hlen. lia.
Qed.

Lemma Map_delete_elem {V : Type} (key k : string) (v : V)
  (l : list (string * V)) :
  (k, v) ∈ Map_delete key l -> (k, v) ∈ l.
Proof.
  induction l as [| [k' w] l IH]; [intros H; exact H |]. simpl.
  destruct (decide (k' = key)).
  - intros H. apply list_elem_of_further, IH, H.
  - rewrite !elem_of_cons. intros [H | H]; [left; exact H | right; apply IH, H].
Qed.

Lemma Map_set_elem {V : Type} (key k : string) (value v : V)
  (l : list (string * V)) :
  (k, v) ∈ Map_set key value l -> (k, v) = (key, value) \/ (k, v) ∈ l.
Proof.
  induction l as [| [k' w] l IH]; simpl.
  - rewrite list_elem_of_singleton. tauto.
  - destruct (decide (k' = key)); rewrite !elem_of_cons.
    + intros [H | H]; [left; exact H | right; right; exact H].
    + intros [H | H]; [right; left; exact H |].
      destruct (IH H) as [? | ?]; [left | right; right]; assumption.
Qed.

Section LoaderMore.
Context (numberToString : number -> string).
Context (typeErrorMessage : string -> string).

Local Abbreviation bbox_of bounds :=
  (boundsToOverpassBbox numberToString (addBoundsBuffer bounds 0.3)).
Local Abbreviation call := (loadBuildings_call numberToString).
Local Abbreviation resume :=
  (loadBuildings_resume numberToString typeErrorMessage).
Local Abbreviation handle := (react numberToString typeErrorMessage).
Local Abbreviation handle_all :=
  (reacts numberToString typeErrorMessage).
Local Abbreviation key_of := (firstPointKey numberToString).
Local Abbreviation merge := (mergeNew numberToString).

(** A call that fetches was made for a viewport inside the home region,
    found nothing cached for its buffered bounds and left the cache as it
    was. *)
Lemma call_Some_cache bounds st st' p :
  call bounds st = (st', Some p) ->
  isWithinVienna bounds = true /\
  Map_get (boundsToKey (addBoundsBuffer bounds 0.3))
    (BoundsCache.cache (buildingCache st)) = None /\
  buildingCache st' = buildingCache st.
Proof.
  unfold loadBuildings_call.
  destruct (isWithinVienna bounds); cbn [negb]; [| discriminate].
  destruct (bool_decide _); [discriminate |].
  unfold BoundsCache.get.
  destruct (Map_get _ _) as [e |] eqn:E; [discriminate |].
  intros [= <- <-]. repeat split.
Qed.

Lemma handle_all_app (evs1 evs2 : list Event) (sys : System) :
  handle_all (evs1 ++ evs2) sys = handle_all evs2 (handle_all evs1 sys).
Proof. unfold reacts. apply fold_left_app. Qed.

(** X19: every fetch of a run was made by a [loadBuildings] call of the run
    whose viewport overlaps the Vienna rectangle, for the bbox string of
    that viewport buffered by 0.3; nothing else fetches. *)
Theorem fetches_in_vienna (evs : list Event) (key : string) :
  key ∈ fetched (handle_all evs initialSystem) ->
  exists bounds,
    Load bounds ∈ evs /\ isWithinVienna bounds = true /\
    key = bbox_of bounds.
Proof.
  induction evs as [| ev evs IH] using rev_ind.
  - intros H. apply elem_of_nil in H. contradiction.
  - rewrite handle_all_app. cbn [reacts fold_left].
    set (sys := handle_all evs initialSystem) in *.
    assert (Hold : key ∈ fetched sys ->
      exists bounds, Load bounds ∈ evs ++ [ev] /\
                     isWithinVienna bounds = true /\ key = bbox_of bounds).
    { intros H. destruct (IH H) as (bounds & Hin & Hv & Hk).
      exists bounds. rewrite elem_of_app. tauto. }
    destruct ev as [bounds | i outcome now |]; unfold react.
    + destruct (call bounds (hook sys)) as [st [p |]] eqn:E;
        cbn [fetched]; [| exact Hold].
      rewrite elem_of_app, list_elem_of_singleton.
      intros [H | ->]; [apply Hold, H |].
      exists bounds. rewrite elem_of_app, list_elem_of_singleton.
      pose proof (call_Some_cache _ _ _ _ E) as (Hv & _).
      apply call_Some in E. destruct E as (Hk & _). tauto.
    + destruct (outstanding sys !! i); exact Hold.
    + exact Hold.
Qed.

Lemma resume_valid p outcome now st :
  state_valid st -> state_valid (resume p outcome now st).
Proof.
  intros [Hb Hc]. unfold loadBuildings_resume.
  destruct (try_newBuildings typeErrorMessage outcome)
    as [err | newBuildings] eqn:Etry;
    [split; [exact Hb | exact Hc] |].
  apply try_newBuildings_inr in Etry. destruct Etry as (data & _ & Hret).
  assert (Hnew : Forall valid_feature newBuildings).
  { apply Forall_forall. intros f. apply (converted_valid _ _ f Hret). }
  split; cbn [buildings buildingCache].
  - unfold mergeNew. cbn [features]. apply Forall_app. split; [exact Hb |].
    apply Forall_forall. intros f Hf. apply list_elem_of_filter in Hf.
    rewrite Forall_forall in Hnew. apply Hnew, Hf.
  - intros key e He. unfold BoundsCache.set in He. cbn [BoundsCache.cache] in He.
    apply Map_set_elem in He. destruct He as [[= _ ->] | He].
    + exact Hnew.
    + unfold BoundsCache.evictOldest in He.
      destruct (_ <=? _)%nat; [| apply (Hc key e He)].
      destruct (Map_keys _) as [| firstKey ks]; [apply (Hc key e He) |].
      apply Map_delete_elem in He. apply (Hc key e He).
Qed.

Lemma call_valid bounds st :
  state_valid st -> state_valid (call bounds st).1.
Proof.
  intros [Hb Hc]. unfold loadBuildings_call.
  destruct (isWithinVienna bounds); cbn [negb]; [| split; assumption].
  destruct (bool_decide _); [split; assumption |].
  unfold BoundsCache.get.
  destruct (Map_get _ _) as [e |] eqn:E; [| split; assumption].
  cbn [fst]. split; cbn [buildings buildingCache BoundsCache.cache].
  - unfold appendCached. cbn [features]. apply Forall_app.
    split; [exact Hb |]. eapply Hc, Map_get_elem, E.
  - intros key e' He. apply Map_set_elem in He.
    destruct He as [[= _ ->] | He].
    + eapply Hc, Map_get_elem, E.
    + apply Map_delete_elem in He. apply (Hc key e' He).
Qed.

Lemma handle_valid (sys : System) (ev : Event) :
  state_valid (hook sys) -> state_valid (hook (handle sys ev)).
Proof.
  intros Hv. destruct ev as [bounds | i outcome now |]; unfold react.
  - pose proof (call_valid bounds (hook sys) Hv) as H.
    destruct (call bounds (hook sys)) as [st [p |]]; exact H.
  - destruct (outstanding sys !! i); [apply resume_valid, Hv | exact Hv].
  - split; [constructor |]. intros key e He. apply elem_of_nil in He.
    contradiction.
Qed.

(** X20: in every run of the hook, every accumulated feature, and every
    feature in the cache, has one ring that is closed, holds 4 to 100
    points and lies inside the home bounding box. *)
Theorem accumulated_features_valid (evs : list Event) :
  let sys := handle_all evs initialSystem in
  Forall valid_feature (features (buildings (hook sys))) /\
  forall key e, (key, e) ∈ BoundsCache.cache (buildingCache (hook sys)) ->
                Forall valid_feature (features (BoundsCache.data e)).
Proof.
  induction evs as [| ev evs IH] using rev_ind.
  - split; [constructor |]. intros key e He. apply elem_of_nil in He.
    contradiction.
  - rewrite handle_all_app. apply handle_valid, IH.
Qed.

(** X21: events other than [clearCache] only add to the accumulated
    buildings: the features before the event are a prefix of the features
    after it; [clearCache] leaves none. *)
Theorem accumulated_grows (sys : System) (ev : Event) :
  match ev with
  | Clear => features (buildings (hook (handle sys ev))) = []
  | _ => features (buildings (hook sys)) `prefix_of`
         features (buildings (hook (handle sys ev)))
  end.
Proof.
  destruct ev as [bounds | i outcome now |]; unfold react.
  - unfold loadBuildings_call.
    destruct (isWithinVienna bounds); cbn [negb]; [| reflexivity].
    destruct (bool_decide _); [reflexivity |].
    destruct (BoundsCache.get _ _) as [[cachedData |] cache'];
      cbn [hook buildings]; [| reflexivity].
    apply prefix_app_r. reflexivity.
  - destruct (outstanding sys !! i) as [p |]; [| reflexivity].
    cbn [hook]. unfold loadBuildings_resume.
    destruct (try_newBuildings typeErrorMessage outcome);
      cbn [buildings]; [reflexivity |].
    apply prefix_app_r. reflexivity.
  - reflexivity.
Qed.

Lemma handle_cache_reachable (sys : System) (ev : Event) :
  BoundsCache.reachable (buildingCache (hook sys)) ->
  BoundsCache.reachable (buildingCache (hook (handle sys ev))).
Proof.
  intros Hr. destruct ev as [bounds | i outcome now |]; unfold react.
  - unfold loadBuildings_call.
    destruct (isWithinVienna bounds); cbn [negb]; [| exact Hr].
    destruct (bool_decide _); [exact Hr |].
    pose proof (BoundsCache.reachable_get _
                  (addBoundsBuffer bounds 0.3) Hr) as Hget.
    destruct (BoundsCache.get _ _) as [[cachedData |] cache'];
      exact Hget.
  - destruct (outstanding sys !! i) as [p |]; [| exact Hr].
    cbn [hook]. unfold loadBuildings_resume.
    destruct (try_newBuildings typeErrorMessage outcome);
      cbn [buildingCache]; [exact Hr |].
    apply BoundsCache.reachable_set, Hr.
  - apply BoundsCache.reachable_clear, Hr.
Qed.

(** X22: in every run of the hook the cache holds at most 50 areas, under
    distinct signatures, and [cacheInfo] after [clearCache] reports no
    cached area and no building. *)
Theorem cacheInfo_bounded (evs : list Event) :
  let sys := handle_all evs initialSystem in
  ((cacheInfo (hook sys)).1 <= 50)%nat /\
  NoDup (BoundsCache.keys (buildingCache (hook sys))) /\
  cacheInfo (hook (handle sys Clear)) = (0%nat, 0%nat).
Proof.
  intros sys.
  assert (Hr : BoundsCache.reachable (buildingCache (hook sys))).
  { unfold sys. induction evs as [| ev evs IH] using rev_ind.
    - apply BoundsCache.reachable_new.
    - rewrite handle_all_app. apply handle_cache_reachable, IH. }
  apply cache_reachable_inv in Hr. destruct Hr as (_ & Hs & Hnd).
  split; [exact Hs |]. split; [exact Hnd | reflexivity].
Qed.

(** X23: after [clearCache], a [loadBuildings] call for a viewport inside
    the home region whose bbox string is not in flight fetches, whether or
    not its region was cached before; the accumulated set is empty and
    [loading] is set. *)
Theorem clear_then_load_fetches (sys : System) (bounds : MapBounds) :
  isWithinVienna bounds = true ->
  bbox_of bounds ∉ loadingRef (hook sys) ->
  let sys' := handle (handle sys Clear) (Load bounds) in
  fetched sys' = fetched sys ++ [bbox_of bounds] /\
  features (buildings (hook sys')) = [] /\
  loading (hook sys') = true /\
  (bbox_of bounds ∈ loadingRef (hook sys')).
Proof.
  intros Hv Hk sys'. unfold sys', react at 1. cbn [react hook].
  rewrite call_fetch; [| exact Hv | exact Hk | apply not_elem_of_nil].
  cbn. repeat split. apply elem_of_union_l, elem_of_singleton. reflexivity.
Qed.

(** X24: [loading] does not count the fetches: when one of several
    outstanding fetches settles, [loading] becomes false although calls are
    still suspended. *)
Theorem loading_cleared_while_fetching (sys : System) (i : nat)
  (p : Pending) (outcome : FetchOutcome) (now : Z) :
  outstanding sys !! i = Some p ->
  (1 < length (outstanding sys))%nat ->
  let sys' := handle sys (Settle i outcome now) in
  loading (hook sys') = false /\
  S (length (outstanding sys')) = length (outstanding sys) /\
  outstanding sys' ≠ [].
Proof.
  intros Hi Hlen sys'. unfold sys', react. rewrite Hi.
  cbn [hook outstanding].
  assert (Hdel : S (length (delete i (outstanding sys))) =
                 length (outstanding sys)).
  { pose proof (lookup_lt_Some _ _ _ Hi) as Hlt.
    rewrite length_delete by (rewrite Hi; eexists; reflexivity). lia. }
  split; [reflexivity |]. split; [exact Hdel |].
  intros E. rewrite E in Hdel. simpl in Hdel. lia.
Qed.

Lemma merge_keys newBuildings prev key :
  key ∈ key_of <$> features (merge newBuildings prev) <->
  key ∈ key_of <$> features prev \/ key ∈ key_of <$> newBuildings.
Proof.
  unfold mergeNew. cbn [features]. rewrite fmap_app, elem_of_app.
  split.
  - intros [H | H]; [left; exact H | right].
    apply list_elem_of_fmap in H. destruct H as (f & -> & Hf).
    apply list_elem_of_filter in Hf. apply list_elem_of_fmap.
    exists f. tauto.
  - intros [H | H]; [left; exact H |].
    destruct (decide (key ∈ key_of <$> features prev)) as [? | Hn];
      [left; assumption | right].
    apply list_elem_of_fmap in H. destruct H as (f & -> & Hf).
    apply list_elem_of_fmap. exists f. split; [reflexivity |].
    apply list_elem_of_filter. tauto.
Qed.

(** X25: the first points known after a fetch-path merge are those known
    before and those of the new features; so two fetches that complete in
    either order leave the same set of first points. *)
Theorem merge_first_points (batch1 batch2 : list ViennaBuilding)
  (prev : FeatureCollection) (key : option string) :
  (key ∈ key_of <$> features (merge batch1 prev) <->
   key ∈ key_of <$> features prev \/ key ∈ key_of <$> batch1) /\
  (key ∈ key_of <$> features (merge batch2 (merge batch1 prev)) <->
   key ∈ key_of <$> features (merge batch1 (merge batch2 prev))).
Proof.
  split; [apply merge_keys |]. rewrite !merge_keys. tauto.
Qed.

(** X26: the fetch-path merge keeps the accumulated features in front,
    appends only new features whose first point was not there, keeps the
    first points pairwise distinct when those of the new features are, and
    adds nothing when the same features are merged again. *)
Theorem merge_spec (newBuildings : list ViennaBuilding)
  (prev : FeatureCollection) :
  (exists added,
      features (merge newBuildings prev) = features prev ++ added /\
      added `sublist_of` newBuildings /\
      forall f, f ∈ added -> key_of f ∉ key_of <$> features prev) /\
  (NoDup (key_of <$> features prev) -> NoDup (key_of <$> newBuildings) ->
   NoDup (key_of <$> features (merge newBuildings prev))) /\
  merge newBuildings (merge newBuildings prev) = merge newBuildings prev.
Proof.
  split; [| split].
  - eexists. split; [reflexivity |]. split; [apply sublist_filter |].
    intros f Hf. apply list_elem_of_filter in Hf. tauto.
  - apply mergeNew_NoDup.
  - apply mergeNew_twice.
Qed.



(** X11: one [null] entry among the elements makes the whole load fail,
    wherever it stands and whatever the other elements are: the converter
    raises at the read of its [geometry], outside the [try] of the
    callback, and the call ends in its [catch] with the engine's message
    as the error, nothing cached and nothing accumulated; a [null] body
    does the same at the read of [elements].  Without a [null] entry the
    converter returns the features of the elements, in their order. *)
Theorem converter_null_entry_aborts (els1 els2 : list (option OSMElement))
  (p : Pending) (now : Z) (st : HookState) :
  let data := Some {| elements := Some (els1 ++ None :: els2) |} in
  convertOSMToGeoJSON data = ThrowsTypeError "geometry" /\
  failed_with p st (resume p (JsonData data) now st)
    (typeErrorMessage "geometry") /\
  convertOSMToGeoJSON None = ThrowsTypeError "elements" /\
  failed_with p st (resume p (JsonData None) now st)
    (typeErrorMessage "elements") /\
  (forall es : list OSMElement,
     convertOSMToGeoJSON (Some {| elements := Some (Some <$> es) |}) =
     Returns (omap convertElement es)).
Proof.
  intros data.
  assert (Hthrows : convertOSMToGeoJSON data = ThrowsTypeError "geometry").
  { unfold data, convertOSMToGeoJSON. cbn [elements].
    apply forEach_element_Throws. split; [| reflexivity].
    apply elem_of_app. right. apply list_elem_of_here. }
  assert (Hfail : forall d property,
    convertOSMToGeoJSON d = ThrowsTypeError property ->
    failed_with p st (resume p (JsonData d) now st)
      (typeErrorMessage property)).
  { intros d property Hd.
    assert (Hthrown : thrownBy typeErrorMessage (JsonData d) =
                      Some (ErrorObject (typeErrorMessage property))).
    { unfold thrownBy. cbn [try_newBuildings]. rewrite Hd. reflexivity. }
    rewrite (resume_thrown _ _ _ _ _ _ _ Hthrown). unfold failed_with.
    cbn [error buildings buildingCache loading loadingRef errorMessage].
    repeat split. rewrite elem_of_difference, elem_of_singleton. tauto. }
  split; [exact Hthrows |]. split; [apply Hfail, Hthrows |].
  split; [reflexivity |]. split; [apply Hfail; reflexivity |].
  intros es. unfold convertOSMToGeoJSON. cbn [elements].
  apply forEach_element_Returns. exists es. split; reflexivity.
Qed.
End LoaderMore.

(** The Graben way and another way, with a [null] entry between them,
    while one building is accumulated: nothing is added and nothing
    cached. *)
Lemma converter_null_entry_aborts_witness :
  let f := mkViennaBuilding (buildingProperties graben_tags) [closed_nodes] in
  let data :=
    Some {| elements := Some ([Some (graben_way closed_nodes)] ++
                              None :: [Some (graben_way open_nodes)]) |} in
  let p := {| bufferedBounds := addBoundsBuffer sample_view 0.3;
              boundsKey := "bbox" |} in
  let st := {| buildings := {| features := [f] |}; loading := true;
               error := None; loadingRef := {[ "bbox" ]};
               buildingCache := BoundsCache.new |} in
  let st' :=
    loadBuildings_resume sample_numberToString sample_typeErrorMessage p
      (JsonData data) 0%Z st in
  convertOSMToGeoJSON data = ThrowsTypeError "geometry" /\
  error st' = Some "Cannot read properties of null (reading 'geometry')" /\
  features (buildings st') = [f] /\
  cacheInfo st' = (0%nat, 1%nat).
Proof.
  intros f data p st st'.
  destruct (converter_null_entry_aborts sample_numberToString
              sample_typeErrorMessage [Some (graben_way closed_nodes)]
              [Some (graben_way open_nodes)] p 0%Z st)
    as (Hthrows & (Herr & Hb & Hc & _) & _).
  split; [exact Hthrows |]. split; [exact Herr |].
  split; [exact (f_equal features Hb) |]. unfold cacheInfo.
  exact (f_equal2 (fun c b => (BoundsCache.size c, length (features b)))
           Hc Hb).
Defined.

Lemma fetches_in_vienna_witness :
  exists bounds,
    Load bounds ∈ [Load sample_view] /\ isWithinVienna bounds = true /\
    boundsToOverpassBbox sample_numberToString
      (addBoundsBuffer sample_view 0.3) =
    boundsToOverpassBbox sample_numberToString (addBoundsBuffer bounds 0.3).
Proof.
  apply (fetches_in_vienna sample_numberToString sample_typeErrorMessage
           [Load sample_view]).
  vm_compute. apply list_elem_of_here.
Defined.

(** The region of the viewport is fetched and cached, the cache is
    cleared, and the same viewport is fetched a second time. *)
Lemma clear_then_load_fetches_witness :
  let bbox := boundsToOverpassBbox sample_numberToString
                (addBoundsBuffer sample_view 0.3) in
  let data := Some {| elements := Some [Some (graben_way closed_nodes)] |} in
  let sys :=
    reacts sample_numberToString sample_typeErrorMessage
      [Load sample_view; Settle 0 (JsonData data) 0] initialSystem in
  let sys' :=
    react sample_numberToString sample_typeErrorMessage
      (react sample_numberToString sample_typeErrorMessage sys Clear)
      (Load sample_view) in
  cacheInfo (hook sys) = (1%nat, 1%nat) /\
  fetched sys = [bbox] /\
  fetched sys' = [bbox; bbox] /\
  features (buildings (hook sys')) = [].
Proof.
  intros bbox data sys sys'.
  assert (Hfetched : fetched sys = [bbox]) by (vm_compute; reflexivity).
  destruct (clear_then_load_fetches sample_numberToString
              sample_typeErrorMessage sys sample_view) as (H & Hb & _).
  - vm_compute. reflexivity.
  - destruct (reacts_in_flight_ok sample_numberToString
                sample_typeErrorMessage
                [Load sample_view; Settle 0 (JsonData data) 0]
                initialSystem initialSystem_in_flight_ok) as [_ Hset].
    fold sys in Hset. intros Hin. apply Hset in Hin.
    assert (Hout : outstanding sys = []) by (vm_compute; reflexivity).
    rewrite Hout in Hin. apply elem_of_nil in Hin. exact Hin.
  - split; [vm_compute; reflexivity |]. split; [exact Hfetched |].
    split; [| exact Hb].
    unfold sys'. rewrite H, Hfetched. reflexivity.
Defined.

Lemma loading_cleared_while_fetching_witness :
  let sys :=
    reacts sample_numberToString sample_typeErrorMessage
      [Load sample_view; Load (mkMapBounds 48.22 48.21 16.39 16.38)]
      initialSystem in
  let sys' :=
    react sample_numberToString sample_typeErrorMessage sys
      (Settle 0 (ResponseNotOk 504) 0) in
  loading (hook sys') = false /\ outstanding sys' ≠ [].
Proof.
  intros sys sys'.
  destruct (loading_cleared_while_fetching sample_numberToString
              sample_typeErrorMessage sys 0
              {| bufferedBounds := addBoundsBuffer sample_view 0.3;
                 boundsKey := boundsToOverpassBbox sample_numberToString
                                (addBoundsBuffer sample_view 0.3) |}
              (ResponseNotOk 504) 0) as (Hl & _ & Hout).
  - vm_compute. reflexivity.
  - vm_compute. repeat constructor.
  - split; [exact Hl | exact Hout].
Defined.

(** One building is accumulated; the fetch brings it again together with
    a building on another first point: only the second is added. *)
Lemma merge_spec_witness :
  let f := mkViennaBuilding (buildingProperties graben_tags) [closed_nodes] in
  let g := mkViennaBuilding (buildingProperties graben_tags) [east_nodes] in
  let merged := mergeNew sample_numberToString [f; g] {| features := [f] |} in
  features merged = [f; g] /\
  NoDup (firstPointKey sample_numberToString <$> features merged) /\
  mergeNew sample_numberToString [f; g] merged = merged.
Proof.
  intros f g merged.
  destruct (merge_spec sample_numberToString [f; g] {| features := [f] |})
    as (_ & Hnd & Hidem).
  split; [vm_compute; reflexivity |]. split; [| exact Hidem].
  apply Hnd.
  - apply (bool_decide_unpack _). vm_compute. exact I.
  - apply (bool_decide_unpack _). vm_compute. exact I.
Defined.



(** * Further properties: the cache key *)

Lemma string_all_app (P : ascii -> bool) (a b : string) :
  string_all P (a ++ b) = string_all P a && string_all P b.
Proof.
  induction a as [| c a IH]; [reflexivity |].
  change (string_all P (String c (a ++ b)) =
          string_all P (String c a) && string_all P b).
  cbn [string_all]. rewrite IH. apply andb_assoc.
Qed.

Lemma string_all_impl (P R : ascii -> bool) (s : string) :
  (forall c, P c = true -> R c = true) ->
  string_all P s = true -> string_all R s = true.
Proof.
  intros HPR. induction s as [| c s IH]; [reflexivity |]. cbn [string_all].
  rewrite !andb_true_iff. intros [Hc Hs]. split; [apply HPR, Hc | apply IH, Hs].
Qed.

Lemma remove_dots_app (a b : string) :
  remove_dots (a ++ b) = (remove_dots a ++ remove_dots b)%string.
Proof.
  induction a as [| c a IH]; [reflexivity |].
  change (remove_dots (String c (a ++ b)) =
          (remove_dots (String c a) ++ remove_dots b)%string).
  cbn [remove_dots]. rewrite IH. destruct (Ascii.eqb c "."); reflexivity.
Qed.

Lemma remove_dots_digits (s : string) :
  string_all is_decimal_digit s = true -> remove_dots s = s.
Proof.
  induction s as [| c s IH]; [reflexivity |]. cbn [string_all remove_dots].
  rewrite andb_true_iff. intros [Hc Hs]. rewrite (IH Hs).
  destruct (Ascii.eqb_spec c "."); [subst c; discriminate | reflexivity].
Qed.

Lemma substring_full (s : string) :
  String.substring 0 (String.length s) s = s.
Proof.
  induction s as [| c s IH]; [reflexivity |]. simpl. rewrite IH.
  reflexivity.
Qed.

Lemma substring_split (s : string) (a b : nat) :
  (a + b)%nat = String.length s ->
  (String.substring 0 a s ++ String.substring a b s)%string = s.
Proof.
  revert s. induction a as [| a IH]; intros s Hlen.
  - simpl in Hlen. subst b. rewrite substring_full.
    destruct s; reflexivity.
  - destruct s as [| c s]; [discriminate |]. simpl in Hlen.
    injection Hlen as Hlen.
    change (String c (String.substring 0 a s ++ String.substring a b s)%string
            = String c s).
    rewrite (IH s Hlen). reflexivity.
Qed.

Lemma substring_all (P : ascii -> bool) (s : string) (a b : nat) :
  string_all P s = true -> string_all P (String.substring a b s) = true.
Proof.
  revert a b. induction s as [| c s IH]; intros a b Hs.
  - destruct a, b; reflexivity.
  - cbn [string_all] in Hs. apply andb_true_iff in Hs. destruct Hs as [Hc Hs].
    destruct a as [| a]; simpl.
    + destruct b as [| b]; [reflexivity |]. cbn [string_all].
      rewrite Hc. apply IH, Hs.
    + apply IH, Hs.
Qed.

Lemma pretty_N_char_digit (d : N) : is_decimal_digit (pretty_N_char d) = true.
Proof.
  destruct d as [| p]; [reflexivity |].
  do 4 (destruct p as [p | p |]; try reflexivity).
Qed.

Lemma pretty_N_go_digits (x : N) (s : string) :
  string_all is_decimal_digit s = true ->
  string_all is_decimal_digit (pretty_N_go x s) = true.
Proof.
  revert s. induction (N.lt_wf_0 x) as [x _ IH]. intros s Hs.
  destruct (decide (x = 0)%N) as [-> | Hx]; [exact Hs |].
  assert (Hpos : (0 < x)%N) by (destruct x; [congruence | reflexivity]).
  rewrite pretty_N_go_step by exact Hpos.
  apply IH; [apply N.div_lt; [exact Hpos | reflexivity] |].
  cbn [string_all]. rewrite pretty_N_char_digit. exact Hs.
Qed.

Lemma zeros_digits (k : nat) : string_all is_decimal_digit (zeros k) = true.
Proof. induction k as [| k IH]; [reflexivity |]. exact IH. Qed.

Lemma zeros_length (k : nat) : String.length (zeros k) = k.
Proof.
  induction k as [| k IH]; [reflexivity |].
  change (S (String.length (zeros k)) = S k). rewrite IH. reflexivity.
Qed.

Lemma string_length_app (a b : string) :
  String.length (a ++ b) = (String.length a + String.length b)%nat.
Proof.
  induction a as [| c a IH]; [reflexivity |].
  change (S (String.length (a ++ b)) = S (String.length a + String.length b)).
  rewrite IH. reflexivity.
Qed.

Lemma parse_digits_zeros (k : nat) (t : string) (acc : option Z) :
  default 0%Z acc = 0%Z ->
  exists acc', default 0%Z acc' = 0%Z /\
    parse_digits 10 (zeros k ++ t) acc = parse_digits 10 t acc'.
Proof.
  revert acc. induction k as [| k IH]; intros acc Hacc.
  - exists acc. split; [exact Hacc | reflexivity].
  - destruct (IH (Some 0%Z) eq_refl) as (acc' & Hacc' & Hparse).
    exists acc'. split; [exact Hacc' |].
    change (parse_digits 10 (String "0" (zeros k ++ t)) acc =
            parse_digits 10 t acc').
    cbn [parse_digits]. change (digit_value "0") with (Some 0%Z).
    cbv iota beta. change (0 <? 10)%Z with true. cbv iota.
    rewrite Hacc. exact Hparse.
Qed.

(** The padded digits of a non-negative integer read back as it. *)
Lemma parse_padded (k : nat) (n : Z) :
  (0 <= n)%Z ->
  parse_digits 10 (zeros k ++ pretty n) None = Some n.
Proof.
  intros Hn. destruct (parse_digits_zeros k (pretty n) None eq_refl)
    as (acc & Hacc & ->).
  destruct n as [| p | p]; [| | lia].
  - change (pretty 0%Z) with "0". cbn [parse_digits].
    change (digit_value "0") with (Some 0%Z). cbv iota beta.
    change (0 <? 10)%Z with true. cbv iota. rewrite Hacc. reflexivity.
  - change (pretty (Z.pos p)) with (pretty_N_go (N.pos p) "").
    rewrite parse_digits_pretty_go by (reflexivity || exact Hacc).
    reflexivity.
Qed.

Lemma pretty_Z_digits (n : Z) :
  (0 <= n)%Z -> string_all is_decimal_digit (pretty n) = true.
Proof.
  intros Hn. destruct n as [| p | p]; [reflexivity | | lia].
  change (pretty (Z.pos p)) with (pretty_N_go (N.pos p) "").
  apply pretty_N_go_digits. reflexivity.
Qed.

Lemma rounded_nonneg (f : nat) (x : number) : (0 <= (rounded f x).2)%Z.
Proof.
  unfold rounded. cbn [snd].
  change 0%Z with (Qfloor 0). apply Qfloor_resp_le.
  assert (H1 : (0 <= Qabs x)%Q) by apply Qabs_nonneg.
  assert (H2 : (0 <= inject_Z (10 ^ Z.of_nat f))%Q).
  { change 0%Q with (inject_Z 0). rewrite <- Zle_Qle.
    apply Z.pow_nonneg. lia. }
  pose proof (Qmult_le_0_compat _ _ H1 H2). lra.
Qed.

(** [toFixed] with at least one decimal reads back as the sign and the
    rounded magnitude. *)
Lemma unFixed_toFixed (f : nat) (x : number) :
  unFixed (toFixed (S f) x) = ((rounded (S f) x).1, Some (rounded (S f) x).2).
Proof.
  pose proof (rounded_nonneg (S f) x) as Hn. unfold toFixed, rounded in *.
  cbn [fst snd] in *.
  set (n := Qfloor (Qabs x * inject_Z (10 ^ Z.of_nat (S f)) + (1 # 2))) in *.
  set (m := (zeros (S f + 1 - String.length (pretty n)) ++ pretty n)%string).
  assert (Hm : string_all is_decimal_digit m = true).
  { unfold m. rewrite string_all_app, zeros_digits, pretty_Z_digits by exact Hn.
    reflexivity. }
  assert (Hlen : (S f + 1 <= String.length m)%nat).
  { unfold m. rewrite string_length_app, zeros_length. lia. }
  assert (Hsplit : (String.substring 0 (String.length m - S f) m ++
                    String.substring (String.length m - S f) (S f) m)%string
                   = m).
  { apply substring_split. lia. }
  assert (Hbody : remove_dots
            (String.substring 0 (String.length m - S f) m ++ "." ++
             String.substring (String.length m - S f) (S f) m) = m).
  { rewrite !remove_dots_app. change (remove_dots ".") with "".
    change ("" ++ ?s)%string with s.
    rewrite <- remove_dots_app, Hsplit. apply remove_dots_digits, Hm. }
  assert (Hparse : parse_digits 10 m None = Some n)
    by (apply parse_padded, Hn).
  destruct (num_lt x 0).
  - change ("-" ++ ?s)%string with (String "-" s). cbn [unFixed].
    change (Ascii.eqb "-" "-") with true. cbv iota.
    rewrite Hbody, Hparse. reflexivity.
  - change ("" ++ ?s)%string with s.
    destruct m as [| c m'] eqn:Em; [simpl in Hlen; lia |].
    destruct (String.length (String c m') - S f)%nat as [| j] eqn:Ej;
      [simpl in Hlen, Ej; lia |].
    change (String.substring 0 (S j) (String c m'))
      with (String c (String.substring 0 j m')) in *.
    change (String c ?a ++ ?b)%string with (String c (a ++ b)) in *.
    cbn [unFixed].
    cbn [string_all] in Hm. apply andb_true_iff in Hm. destruct Hm as [Hc _].
    destruct (Ascii.eqb_spec c "-"); [subst c; discriminate |].
    rewrite Hbody, Hparse. reflexivity.
Qed.

Lemma toFixed_chars (f : nat) (x : number) :
  string_all not_comma (toFixed (S f) x) = true.
Proof.
  pose proof (rounded_nonneg (S f) x) as Hn. unfold toFixed, rounded in *.
  cbn [fst snd] in *.
  set (n := Qfloor (Qabs x * inject_Z (10 ^ Z.of_nat (S f)) + (1 # 2))) in *.
  set (m := (zeros (S f + 1 - String.length (pretty n)) ++ pretty n)%string).
  assert (Hm : string_all not_comma m = true).
  { apply (string_all_impl is_decimal_digit).
    - intros c Hc. unfold not_comma.
      destruct (Ascii.eqb_spec c ","); [subst c; discriminate | reflexivity].
    - unfold m. rewrite string_all_app, zeros_digits, pretty_Z_digits
        by exact Hn. reflexivity. }
  rewrite !string_all_app, !substring_all by exact Hm.
  destruct (num_lt x 0); reflexivity.
Qed.

Lemma comma_split (a a' r r' : string) :
  string_all not_comma a = true -> string_all not_comma a' = true ->
  (a ++ "," ++ r)%string = (a' ++ "," ++ r')%string -> a = a' /\ r = r'.
Proof.
  revert a'. induction a as [| c a IH]; intros a' Ha Ha' E.
  - destruct a' as [| c' a'].
    + injection E as E. split; [reflexivity | exact E].
    + change (String "," r = String c' (a' ++ "," ++ r')) in E.
      injection E as <- _. discriminate.
  - destruct a' as [| c' a'].
    + change (String c (a ++ "," ++ r) = String "," r') in E.
      injection E as -> _. discriminate.
    + change (String c (a ++ "," ++ r) = String c' (a' ++ "," ++ r')) in E.
      injection E as <- E. cbn [string_all] in Ha, Ha'.
      apply andb_true_iff in Ha, Ha'.
      destruct (IH a' (proj2 Ha) (proj2 Ha') E) as [-> ->].
      split; reflexivity.
Qed.

Lemma toFixed_from_rounded (f : nat) (x y : number) :
  rounded f x = rounded f y -> toFixed f x = toFixed f y.
Proof.
  intros E.
  set (F := fun r : bool * Z =>
    let s := if r.1 then "-" else "" in
    let m0 : string := pretty r.2 in
    let m := (zeros (f + 1 - String.length m0) ++ m0)%string in
    let k := String.length m in
    match f with
    | O => (s ++ m)%string
    | _ =>
        (s ++ String.substring 0 (k - f) m ++ "." ++
         String.substring (k - f) f m)%string
    end).
  change (F (rounded f x) = F (rounded f y)). rewrite E. reflexivity.
Qed.

(** X29: the cache key is the quantization of the bounds and nothing else:
    two bounds have the same key exactly when, edge by edge, the numbers
    have the same sign and the same magnitude rounded to four decimals.
    (A negative number that rounds to zero keeps its minus sign, so it does
    not share a key with zero.) *)
Theorem boundsToKey_quantizes (a b : MapBounds) :
  boundsToKey a = boundsToKey b <->
  rounded 4 (north a) = rounded 4 (north b) /\
  rounded 4 (south a) = rounded 4 (south b) /\
  rounded 4 (east a) = rounded 4 (east b) /\
  rounded 4 (west a) = rounded 4 (west b).
Proof.
  assert (Hfix : forall x y, toFixed 4 x = toFixed 4 y <->
                             rounded 4 x = rounded 4 y).
  { intros x y. split.
    - intros E. apply (f_equal unFixed) in E.
      rewrite !unFixed_toFixed in E. injection E as E1 E2.
      apply injective_projections; assumption.
    - apply toFixed_from_rounded. }
  unfold boundsToKey. split.
  - intros E.
    apply comma_split in E; try apply toFixed_chars. destruct E as [E1 E].
    apply comma_split in E; try apply toFixed_chars. destruct E as [E2 E].
    apply comma_split in E; try apply toFixed_chars. destruct E as [E3 E4].
    rewrite <- !Hfix. tauto.
  - rewrite <- !Hfix. intros (-> & -> & -> & ->). reflexivity.
Qed.

Lemma boundsToKey_quantizes_witness :
  boundsToKey (mkMapBounds 48.21001 48.20 16.38 16.37) =
  boundsToKey sample_view.
Proof.
  apply boundsToKey_quantizes. repeat split; vm_compute; reflexivity.
Defined.
